(** * Resume parser and ranker (App.py): extraction, scoring and ranking

    A shallow embedding of the functions of [App.py] that carry logic:
    [extract_text] and its two readers, [extract_contact_info],
    [extract_name], [extract_skills], [calculate_match_score], the batch
    loop that builds [results] and the ranking step that builds
    [ranked_df].

    Conventions of the embedding.
    - A Python [str] is a [string]; its code points are 8-bit ([ascii]),
      so the texts covered are those over U+0000..U+00FF.  The character
      classes of the [re] module ([\w], [\d], [\s]) and [str.lower],
      [str.split] follow Python's Unicode tables on that range.
    - A Python [set] of strings is a [gset string]; [None] is [None].
    - Calls into Streamlit ([st.warning], [st.write], the progress bar)
      are recorded in an event log threaded by the [UI] monad.
    - The external collaborators (PyPDF2, python-docx, the spaCy pipeline,
      the pandas sort) are parameters of the sections that use them; the
      sort is also modelled as far as frames of four rows. *)

From Stdlib Require Import ZArith NArith Ascii String.
From stdpp Require Import base decidable option list sorting gmap strings.

(** ** Characters *)

Module Char.

#[local] Open Scope N_scope.

Definition code (c : ascii) : N := N_of_ascii c.

Definition between (lo hi : N) (c : ascii) : bool :=
  (lo <=? code c) && (code c <=? hi).

(** [\d]: decimal digits (category Nd); below U+0100 only [0-9]. *)
Definition is_digit (c : ascii) : bool := between 48 57 c.

Definition is_AZ (c : ascii) : bool := between 65 90 c.
Definition is_az (c : ascii) : bool := between 97 122 c.

(** Alphanumeric code points above U+007F and below U+0100
    ([str.isalnum]): the ordinal indicators, micro sign, superscript
    digits, vulgar fractions and the Latin-1 letters. *)
Definition is_latin1_alnum (c : ascii) : bool :=
  (code c =? 170) || (code c =? 178) || (code c =? 179) || (code c =? 181)
  || (code c =? 185) || (code c =? 186) || between 188 190 c
  || between 192 214 c || between 216 246 c || between 248 255 c.

(** [\w]: alphanumeric or underscore. *)
Definition is_word (c : ascii) : bool :=
  is_az c || is_AZ c || is_digit c || (code c =? 95) || is_latin1_alnum c.

(** [\s] and the separators of [str.split()]: TAB, LF, VT, FF, CR,
    the four information separators, SPACE, NEL and NBSP. *)
Definition is_space (c : ascii) : bool :=
  between 9 13 c || between 28 32 c || (code c =? 133) || (code c =? 160).

(** [str.lower] on one code point: [A-Z] and the Latin-1 capitals
    (U+00C0..U+00DE without the multiplication sign) move up by 32. *)
Definition lower (c : ascii) : ascii :=
  if is_AZ c || (between 192 222 c && negb (code c =? 215))
  then ascii_of_N (code c + 32)
  else c.

End Char.

(** ** Strings *)

Definition chars (s : string) : list ascii := list_ascii_of_string s.
Definition str (l : list ascii) : string := string_of_list_ascii l.

(** ["\n"] *)
Definition newline : string := String (ascii_of_N 10) EmptyString.

(** [s.lower()] *)
Definition str_lower (s : string) : string := str (map Char.lower (chars s)).

(** [s.split()]: maximal runs of non-whitespace characters. *)
Fixpoint split_go (cur : list ascii) (l : list ascii) : list string :=
  match l with
  | [] => match cur with [] => [] | _ => [str (rev cur)] end
  | c :: l' =>
      if Char.is_space c
      then match cur with
           | [] => split_go [] l'
           | _ => str (rev cur) :: split_go [] l'
           end
      else split_go (c :: cur) l'
  end.

Definition str_split (s : string) : list string := split_go [] (chars s).

(** ** Regular expressions

    The fragment of [re] syntax that the program's three patterns use.
    Matching is by backtracking in the order of [re]: a greedy quantifier
    first takes as many repetitions as it can and gives them back one at
    a time.  The continuation [k] is the rest of the pattern; it receives
    the character just before the current position (for [\b]) and the
    remaining input, and answers with the input left after the match. *)

Module Re.

Inductive regex : Type :=
| Chr (c : ascii)                       (* an escaped or plain literal *)
| Cls (p : ascii -> bool)               (* [...], \d, \s *)
| Bnd                                   (* \b *)
| Cat (r1 r2 : regex)                   (* r1r2 *)
| Opt (r : regex)                       (* r? *)
| Rep (p : ascii -> bool) (lo : nat) (hi : option nat). (* [...]{lo,hi} *)

Definition word_at (c : option ascii) : bool :=
  match c with Some x => Char.is_word x | None => false end.

(** [\b] holds between a word character and a non-word character or an
    edge of the text. *)
Definition boundary (prev : option ascii) (s : list ascii) : bool :=
  xorb (word_at prev) (word_at (head s)).

Definition cont : Type := option ascii -> list ascii -> option (list ascii).

Definition hi_open (hi : option nat) : bool :=
  match hi with Some 0%nat => false | _ => true end.

Fixpoint rep (p : ascii -> bool) (lo : nat) (hi : option nat)
    (prev : option ascii) (s : list ascii) (k : cont) : option (list ascii) :=
  let stop := match lo with 0%nat => k prev s | _ => None end in
  match s with
  | c :: s' =>
      if hi_open hi && p c
      then match rep p (Nat.pred lo) (Nat.pred <$> hi) (Some c) s' k with
           | Some out => Some out
           | None => stop
           end
      else stop
  | [] => stop
  end.

Fixpoint run (r : regex) (prev : option ascii) (s : list ascii) (k : cont)
    : option (list ascii) :=
  match r with
  | Chr c =>
      match s with
      | x :: s' => if Ascii.eqb x c then k (Some x) s' else None
      | [] => None
      end
  | Cls p =>
      match s with
      | x :: s' => if p x then k (Some x) s' else None
      | [] => None
      end
  | Bnd => if boundary prev s then k prev s else None
  | Cat r1 r2 => run r1 prev s (fun prev' s' => run r2 prev' s' k)
  | Opt r' =>
      match run r' prev s k with
      | Some out => Some out
      | None => k prev s
      end
  | Rep p lo hi => rep p lo hi prev s k
  end.

(** The match that starts at the current position, if any: the matched
    text, cut from the input by the length of what is left. *)
Definition match_here (r : regex) (prev : option ascii) (s : list ascii)
    : option (list ascii) :=
  match run r prev s (fun _ rest => Some rest) with
  | Some rest => Some (take (length s - length rest) s)
  | None => None
  end.

(** [re.search]: the match at the leftmost position that has one. *)
Fixpoint search_from (r : regex) (prev : option ascii) (s : list ascii)
    : option (list ascii) :=
  match match_here r prev s with
  | Some m => Some m
  | None =>
      match s with
      | c :: s' => search_from r (Some c) s'
      | [] => None
      end
  end.

Definition search (r : regex) (text : string) : option string :=
  str <$> search_from r None (chars text).

(** [re.findall] for a pattern without groups: the matches from left to
    right, each search resuming where the previous match ended ([skip]
    counts the characters of that match still to pass over); after an
    empty match the scan moves on by one character. *)
Fixpoint findall_from (r : regex) (skip : nat) (prev : option ascii)
    (s : list ascii) : list (list ascii) :=
  match skip with
  | S n =>
      match s with
      | c :: s' => findall_from r n (Some c) s'
      | [] => []
      end
  | O =>
      match match_here r prev s with
      | Some m =>
          m :: match s with
               | c :: s' => findall_from r (Nat.pred (length m)) (Some c) s'
               | [] => []
               end
      | None =>
          match s with
          | c :: s' => findall_from r 0 (Some c) s'
          | [] => []
          end
      end
  end.

Definition findall (r : regex) (text : string) : list string :=
  str <$> findall_from r 0 None (chars text).

(** A literal string as a pattern: what [re.escape] produces. *)
Fixpoint lit (l : list ascii) (tail : regex) : regex :=
  match l with
  | [] => tail
  | c :: l' => Cat (Chr c) (lit l' tail)
  end.

(** Membership in a bracket expression given by its listed characters. *)
Definition one_of (s : string) (c : ascii) : bool :=
  existsb (Ascii.eqb c) (chars s).

End Re.

Import Re.

(** ** Contact information *)

(** [[A-Za-z0-9._%+-]] *)
Definition email_local (c : ascii) : bool :=
  Char.is_AZ c || Char.is_az c || Char.is_digit c || one_of "._%+-" c.

(** [[A-Za-z0-9.-]] *)
Definition email_domain (c : ascii) : bool :=
  Char.is_AZ c || Char.is_az c || Char.is_digit c || one_of ".-" c.

(** [[A-Z|a-z]]: the bar is a member of the set. *)
Definition email_tld (c : ascii) : bool :=
  Char.is_AZ c || one_of "|" c || Char.is_az c.

(** [[-.\s]] *)
Definition phone_sep (c : ascii) : bool :=
  one_of "-." c || Char.is_space c.

(** [\b[A-Za-z0-9._%+-]+@[A-Za-z0-9.-]+\.[A-Z|a-z]{2,}\b] *)
Definition email_re : regex :=
  Cat Bnd
  (Cat (Rep email_local 1 None)
  (Cat (Chr "@")
  (Cat (Rep email_domain 1 None)
  (Cat (Chr ".")
  (Cat (Rep email_tld 2 None)
       Bnd))))).

(** [\(?\d{3}\)?[-.\s]?\d{3}[-.\s]?\d{4}] *)
Definition phone_re : regex :=
  Cat (Opt (Chr "("))
  (Cat (Rep Char.is_digit 3 (Some 3%nat))
  (Cat (Opt (Chr ")"))
  (Cat (Opt (Cls phone_sep))
  (Cat (Rep Char.is_digit 3 (Some 3%nat))
  (Cat (Opt (Cls phone_sep))
       (Rep Char.is_digit 4 (Some 4%nat))))))).

Definition extract_contact_info (text : string) : option string * option string :=
  let email := findall email_re text in
  let phone := findall phone_re text in
  (head email, head phone).

(** ** Candidate name *)

(** An entity of [doc.ents]: a labelled range of character offsets of the
    processed text.  [ent.text] is the text of that range. *)
Record ent : Type := Ent { start_char : nat; end_char : nat; label_ : string }.

Definition ent_text (text : string) (e : ent) : string :=
  str (take (end_char e - start_char e) (drop (start_char e) (chars text))).

(** What the pipeline guarantees about [doc.ents]: every entity is a
    non-empty range inside the text. *)
Definition ents_within (nlp_model : string -> list ent) : Prop :=
  forall text e, e ∈ nlp_model text ->
    (start_char e < end_char e)%nat /\ (end_char e <= length (chars text))%nat.

(** [[ent.text for ent in doc.ents if ent.label_ == "PERSON"]] *)
Definition person_names (text : string) (ents : list ent) : list string :=
  ent_text text <$> filter (fun e => label_ e = "PERSON") ents.

(** The [for] loop of [extract_name], which returns from inside. *)
Fixpoint first_multi_word (names : list string) : option string :=
  match names with
  | [] => None
  | name :: rest =>
      if (1 <? length (str_split name))%nat then Some name
      else first_multi_word rest
  end.

Definition extract_name (text : string) (nlp_model : string -> list ent)
    : option string :=
  let doc_ents := nlp_model text in
  let names := person_names text doc_ents in
  match first_multi_word names with
  | Some name => Some name
  | None => head names
  end.

(** ** Skills *)

Definition TARGET_SKILLS : list string :=
  [ "python"; "java"; "c++"; "javascript"; "sql"; "nosql"; "mongodb"; "postgresql";
    "aws"; "azure"; "gcp"; "docker"; "kubernetes"; "git"; "jira"; "agile"; "scrum";
    "machine learning"; "deep learning"; "nlp"; "natural language processing";
    "data analysis"; "data science"; "pandas"; "numpy"; "scikit-learn"; "tensorflow";
    "pytorch"; "react"; "angular"; "vue"; "node.js"; "flask"; "django";
    "project management"; "communication"; "teamwork"; "problem solving" ].

(** [r'\b' + re.escape(skill_lower) + r'\b'] *)
Definition skill_pattern (skill_lower : string) : regex :=
  Cat Bnd (lit (chars skill_lower) Bnd).

(** [re.search(pattern, text_lower)] used as a condition. *)
Definition skill_in_text (text_lower skill : string) : bool :=
  bool_decide (is_Some (search (skill_pattern (str_lower skill)) text_lower)).

(** The set [found_skills] when the loop over [skills_list] ends. *)
Definition found_skills (text : string) (skills_list : list string) : gset string :=
  let text_lower := str_lower text in
  foldl (fun found skill =>
           if skill_in_text text_lower skill then found ∪ {[ skill ]} else found)
        ∅ skills_list.

(** [list(found_skills)]: the members in the set's own order, which the
    program does not choose. *)
Definition extract_skills (text : string) (skills_list : list string) : list string :=
  elements (found_skills text skills_list).

(** ** Score *)

Definition calculate_match_score (resume_skills job_desc_keywords : list string) : Z :=
  let common_skills : gset string :=
    list_to_set resume_skills ∩ list_to_set job_desc_keywords in
  Z.of_nat (size common_skills).

(** ** Streamlit calls

    The program talks to the page through [st.*] calls.  A computation in
    [UI] returns its value together with the calls it made, in order. *)

Inductive st_event : Type :=
| StHeader (body : string)
| StSubheader (body : string)
| StWrite (body : string)
| StWarning (body : string)
| StSuccess (body : string)
| StInfo (body : string)
| StProgress (num den : nat).       (* progress_bar.progress(num / den) *)

Definition UI (A : Type) : Type := A * list st_event.

#[global] Instance ui_ret : MRet UI := fun A a => (a, []).
#[global] Instance ui_bind : MBind UI := fun A B f m =>
  let '(a, log1) := m in
  let '(b, log2) := f a in
  (b, log1 ++ log2).

Definition emit (e : st_event) : UI unit := (tt, [e]).
Definition value {A} (m : UI A) : A := fst m.
Definition events {A} (m : UI A) : list st_event := snd m.

(** The texts of the [st.warning] calls among the events. *)
Definition warnings (log : list st_event) : list string :=
  omap (fun e => match e with StWarning w => Some w | _ => None end) log.

(** ** Text extraction *)

(** The result of a call into a library that may raise: the value, or
    the text of the exception (what [{e}] prints). *)
Inductive outcome (A : Type) : Type :=
| Returns (a : A)
| Raises (e : string).
Arguments Returns {A} a.
Arguments Raises {A} e.

Definition bytes : Type := list Byte.byte.

Record uploaded_file : Type := UploadedFile {
  name : string;
  getvalue : bytes
}.

(** [p.rfind(c)]: the last index of [c], or -1. *)
Fixpoint rfind_go (c : ascii) (l : list ascii) (i best : Z) : Z :=
  match l with
  | [] => best
  | x :: l' => rfind_go c l' (i + 1)%Z (if Ascii.eqb x c then i else best)
  end.

Definition rfind (c : ascii) (p : list ascii) : Z := rfind_go c p 0%Z (-1)%Z.

(** [os.path.splitext(p)[1]] (posixpath): the extension starts at the
    last dot, provided that dot comes after the last slash and some
    character between the two is not a dot. *)
Definition splitext_ext (p : string) : string :=
  let l := chars p in
  let sepIndex := rfind "/" l in
  let dotIndex := rfind "." l in
  if (sepIndex <? dotIndex)%Z then
    let filenameIndex := Z.to_nat (sepIndex + 1) in
    let before_dot := take (Z.to_nat dotIndex - filenameIndex) (drop filenameIndex l) in
    if existsb (fun x => negb (Ascii.eqb x ".")) before_dot
    then str (drop (Z.to_nat dotIndex) l)
    else ""
  else "".

Section TextExtraction.

(** [PyPDF2.PdfReader(io.BytesIO(file_content))] and the pages it
    yields: opening may raise, and so may [page.extract_text()] on any
    page. *)
Variable PdfReader : bytes -> outcome (list (outcome string)).

(** [docx.Document(io.BytesIO(file_content))] and [para.text] of its
    paragraphs. *)
Variable Document : bytes -> outcome (list (outcome string)).

(** The page loop inside [try]: the text gathered so far, and the
    exception that ended the loop if one did. *)
Fixpoint pdf_pages (pages : list (outcome string)) (text : string)
    : string * option string :=
  match pages with
  | [] => (text, None)
  | Returns page_text :: rest =>
      pdf_pages rest
        (if bool_decide (page_text = "") then text else text +:+ page_text +:+ newline)
  | Raises e :: _ => (text, Some e)
  end.

Definition extract_text_from_pdf (file_content : bytes) : UI string :=
  match PdfReader file_content with
  | Raises e => emit (StWarning ("Could not read PDF: " +:+ e));; mret ""
  | Returns pages =>
      match pdf_pages pages "" with
      | (text, Some e) => emit (StWarning ("Could not read PDF: " +:+ e));; mret text
      | (text, None) => mret text
      end
  end.

Fixpoint docx_paragraphs (paras : list (outcome string)) (text : string)
    : string * option string :=
  match paras with
  | [] => (text, None)
  | Returns para_text :: rest => docx_paragraphs rest (text +:+ para_text +:+ newline)
  | Raises e :: _ => (text, Some e)
  end.

Definition extract_text_from_docx (file_content : bytes) : UI string :=
  match Document file_content with
  | Raises e => emit (StWarning ("Could not read DOCX: " +:+ e));; mret ""
  | Returns paras =>
      match docx_paragraphs paras "" with
      | (text, Some e) => emit (StWarning ("Could not read DOCX: " +:+ e));; mret text
      | (text, None) => mret text
      end
  end.

Definition extract_text (file : uploaded_file) : UI string :=
  let file_content := getvalue file in
  let file_extension := str_lower (splitext_ext (name file)) in
  if bool_decide (file_extension = ".pdf") then
    extract_text_from_pdf file_content
  else if bool_decide (file_extension = ".docx") then
    extract_text_from_docx file_content
  else
    emit (StWarning ("Unsupported file type: " +:+ name file));; mret "".

End TextExtraction.

(** ** The batch of resumes *)

(** One entry of [results]: the dictionary built per uploaded file. *)
Record row : Type := Row {
  Filename : string;
  Name : string;
  Email : string;
  Phone : string;
  Skills_Found : list string;
  Score : Z;
  Raw_Text : string
}.

(** [x if x else 'Not Found']: [None] and the empty string are falsy. *)
Definition or_not_found (x : option string) : string :=
  match x with
  | Some s => if bool_decide (s = "") then "Not Found" else s
  | None => "Not Found"
  end.

(** [sorted(...)] on strings: ascending by code points. *)
Definition sorted (l : list string) : list string := merge_sort String.le l.

(** [sep.join(l)] *)
Fixpoint join (sep : string) (l : list string) : string :=
  match l with
  | [] => ""
  | [x] => x
  | x :: rest => x +:+ sep +:+ join sep rest
  end.

(** The placeholder entry for a file whose text came back empty. *)
Definition extraction_failed (file : uploaded_file) : row :=
  {| Filename := name file; Name := "Extraction Failed"; Email := "N/A";
     Phone := "N/A"; Skills_Found := []; Score := 0; Raw_Text := "" |}.

Section Batch.

Variable PdfReader : bytes -> outcome (list (outcome string)).
Variable Document : bytes -> outcome (list (outcome string)).
Variable nlp : string -> list ent.

(** The body of [for i, file in enumerate(uploaded_files)], from index
    [i] on, with [results] as built so far. *)
Fixpoint resume_loop (files : list uploaded_file) (i total_files : nat)
    (job_keywords : list string) (results : list row) : UI (list row) :=
  match files with
  | [] => mret results
  | file :: rest =>
      emit (StWrite ("Processing: " +:+ name file +:+ "..."));;
      resume_text ← extract_text PdfReader Document file;
      if bool_decide (resume_text = "") then
        emit (StWrite ("  -> Could not extract text from " +:+ name file +:+ "."));;
        let results := results ++ [extraction_failed file] in
        emit (StProgress (i + 1) total_files);;
        resume_loop rest (i + 1) total_files job_keywords results
      else
        let name_ := extract_name resume_text nlp in
        let '(email, phone) := extract_contact_info resume_text in
        let skills_found := extract_skills resume_text TARGET_SKILLS in
        let score := calculate_match_score skills_found job_keywords in
        let results := results ++ [
          {| Filename := name file;
             Name := or_not_found name_;
             Email := or_not_found email;
             Phone := or_not_found phone;
             Skills_Found := sorted skills_found;
             Score := score;
             Raw_Text := resume_text |} ] in
        emit (StProgress (i + 1) total_files);;
        resume_loop rest (i + 1) total_files job_keywords results
  end.

(** Steps 1 and 2 of the processing block: the keywords of the job
    description, then [results]. *)
Definition process_resumes (uploaded_files : list uploaded_file)
    (job_description : string) : UI (list row) :=
  emit (StHeader "Processing Results");;
  let job_desc_lower := str_lower job_description in
  let job_keywords := extract_skills job_desc_lower TARGET_SKILLS in
  emit (StSubheader "Skills Found in Job Description:");;
  (match job_keywords with
   | _ :: _ => emit (StWrite (join ", " (sorted job_keywords)))
   | [] => emit (StWarning
       "No target skills found in the job description. Ranking might be ineffective.")
   end);;
  let total_files := length uploaded_files in
  emit (StProgress 0 1);;
  resume_loop uploaded_files 0 total_files job_keywords [].

End Batch.

(** ** Ranking *)

(** A data frame: its rows in order, each under its index label. *)
Definition frame (A : Type) : Type := list (Z * A).

(** [pd.DataFrame(results)]: the rows under the labels 0, 1, 2, ... *)
Definition DataFrame {A} (rows : list A) : frame A :=
  zip (Z.of_nat <$> seq 0 (length rows)) rows.

(** [df.reset_index(drop=True)]: same rows, fresh labels. *)
Definition reset_index {A} (df : frame A) : frame A := DataFrame (snd <$> df).

(** A row of the ranked frame: the candidate with its ['Rank'] column. *)
Record ranked_row : Type := Ranked { Rank : Z; candidate : row }.

(** Order on rows that [sort_values(by="Score", ascending=False)] is to
    establish. *)
Definition score_desc (x y : Z * row) : Prop := (Score x.2 >= Score y.2)%Z.

(** What [DataFrame.sort_values] with its default [kind] promises: the
    rows are rearranged, labels kept, into the requested order.  The
    default algorithm is not among the stable ones, so the order of rows
    with equal keys is left open. *)
Record sort_values_spec (sort_values : frame row -> frame row) : Prop := {
  sort_values_perm : forall df, sort_values df ≡ₚ df;
  sort_values_desc : forall df, Sorted score_desc (sort_values df)
}.

Section Ranking.

(** [df.sort_values(by="Score", ascending=False)] *)
Variable sort_values : frame row -> frame row.

(** The frame after [sort_values], before the labels are renewed.  A
    frame made from no rows has no ['Score'] column, and sorting by it
    raises [KeyError]. *)
Definition sorted_df (results : list row) : outcome (frame row) :=
  match results with
  | [] => Raises "'Score'"
  | _ => Returns (sort_values (DataFrame results))
  end.

(** [ranked_df] once its index is moved to start from 1 and copied into
    the ['Rank'] column. *)
Definition ranked_df (results : list row) : outcome (frame ranked_row) :=
  match sorted_df results with
  | Raises e => Raises e
  | Returns df =>
      let ranked := reset_index df in
      let ranked := (fun '(i, r) => ((i + 1)%Z, r)) <$> ranked in
      Returns ((fun '(i, r) => (i, {| Rank := i; candidate := r |})) <$> ranked)
  end.

End Ranking.

(** The whole processing block, entered only when the button was pressed,
    files were uploaded and a job description was given. *)
Definition process_block
    (PdfReader Document : bytes -> outcome (list (outcome string)))
    (nlp : string -> list ent) (sort_values : frame row -> frame row)
    (process_button : bool) (uploaded_files : list uploaded_file)
    (job_description : string) : UI (option (outcome (frame ranked_row))) :=
  if process_button && bool_decide (uploaded_files <> [])
     && bool_decide (job_description <> "")
  then
    results ← process_resumes PdfReader Document nlp uploaded_files job_description;
    match ranked_df sort_values results with
    | Raises e => mret (Some (Raises e))
    | Returns ranked =>
        emit (StSuccess "Processing Complete!");;
        emit (StSubheader "Ranked Candidates");;
        mret (Some (Returns ranked))
    end
  else if process_button then
    emit (StWarning
      "Please upload resumes and paste a job description before processing.");;
    mret None
  else
    emit (StInfo
      "Upload resumes and provide a job description in the sidebar to begin.");;
    mret None.

(** ** Vocabulary of the properties *)

(** The character before offset [i] of a text, if there is one. *)
Definition prev_at (l : list ascii) (i : nat) : option ascii :=
  match i with O => None | S j => l !! j end.

(** The match of [r] that starts at offset [i] of [text], if any. *)
Definition match_at (r : regex) (text : string) (i : nat) : option string :=
  let l := chars text in
  if bool_decide (i <= length l)
  then str <$> match_here r (prev_at l i) (drop i l)
  else None.

(** [found] is the first match of [r] in [text]: the match at the least
    offset that has one, or nothing when no offset has a match. *)
Definition first_match (r : regex) (text : string) (found : option string) : Prop :=
  match found with
  | Some m =>
      exists i, match_at r text i = Some m /\
                forall j, j < i -> match_at r text j = None
  | None => forall i, match_at r text i = None
  end.

(** A run of [n] decimal digits at offset [i], and nothing but digits. *)
Definition digit_run (text : string) (i n : nat) : bool :=
  let run := take n (drop i (chars text)) in
  bool_decide (length run = n) && forallb Char.is_digit run.


(** The distinct members of a list: what [set(l)] holds. *)
Definition distinct (l : list string) : list string := remove_dups l.

(** The members of [A] that also occur in [B]. *)
Definition common (A B : list string) : list string := filter (.∈ B) A.

(** A name of more than one token: [len(name.split()) > 1]. *)
Definition more_than_one_token (name : string) : Prop :=
  1 < length (str_split name).

(** Rows with equal scores stand in the order of their labels, which
    are their positions in the input. *)
Definition keeps_ties_in_input_order (df : frame row) : Prop :=
  forall p q x y,
    df !! p = Some x -> df !! q = Some y -> p < q ->
    Score x.2 = Score y.2 -> (x.1 < y.1)%Z.

(** A sort that meets [sort_values_spec]: merge sort on the descending
    order.  It serves to apply the theorems at frames without equal
    scores, where every sort that meets [sort_values_spec] returns the
    same frame. *)
#[global] Instance score_desc_dec : RelDecision score_desc.
Proof. intros x y. unfold score_desc. apply _. Defined.

Definition sort_values_merged (df : frame row) : frame row :=
  merge_sort score_desc df.

(** ** The sort of a small frame

    [sort_values(by="Score", ascending=False)] hands the column to
    pandas' [nargsort], which turns keys and positions around, argsorts
    them ascending with numpy's default kind, and turns the result around
    again.  On x86 builds numpy's default [argsort] of 64-bit keys is the
    vectorised one: up to four keys fill one register and are sorted by a
    bitonic network of compare-exchanges that carry the positions along;
    a compare-exchange moves two entries only when their keys differ, and
    an empty lane counts as the greatest key.  Neither library is part of
    the repository; this is their path for frames of at most four rows.
    Larger frames go through wider networks and partitioning, which are
    not modelled. *)
Definition compare_exchange (x y : Z * row) : (Z * row) * (Z * row) :=
  if (Score y.2 <? Score x.2)%Z then (y, x) else (x, y).

(** Lanes (0,1) (2,3), then (0,3) (1,2), then (0,1) (2,3). *)
Definition bitonic4 (l : frame row) : frame row :=
  match l with
  | [a; b] =>
      let '(a, b) := compare_exchange a b in
      let '(a, b) := compare_exchange a b in
      [a; b]
  | [a; b; c] =>
      let '(a, b) := compare_exchange a b in
      let '(b, c) := compare_exchange b c in
      let '(a, b) := compare_exchange a b in
      [a; b; c]
  | [a; b; c; d] =>
      let '(a, b) := compare_exchange a b in
      let '(c, d) := compare_exchange c d in
      let '(a, d) := compare_exchange a d in
      let '(b, c) := compare_exchange b c in
      let '(a, b) := compare_exchange a b in
      let '(c, d) := compare_exchange c d in
      [a; b; c; d]
  | _ => l
  end.

Definition sort_values_small (df : frame row) : option (frame row) :=
  if bool_decide (length df <= 4)
  then Some (reverse (bitonic4 (reverse df)))
  else None.

(** [sort_values] as far as it is modelled; a larger frame is left as it
    is, and nothing is stated about it. *)
Definition sort_values_upto4 (df : frame row) : frame row :=
  default df (sort_values_small df).

(** A PDF whose first page yields text and whose second page makes
    [extract_text] of PyPDF2 raise. *)
Definition pdf_bad_second_page (content : bytes) : outcome (list (outcome string)) :=
  Returns [Returns "Jane Doe, Python developer"; Raises "Unexpected end of stream"].

Definition docx_unreadable (content : bytes) : outcome (list (outcome string)) :=
  Raises "File is not a zip file".

Definition no_entities (text : string) : list ent := [].

(** [s] stands at offset [i] of [t] as a whole word: the characters
    before and after it, where there are any, are not word characters. *)
Definition whole_word_at (s t : list ascii) (i : nat) : bool :=
  bool_decide (take (length s) (drop i t) = s)
  && negb (word_at (prev_at t i))
  && negb (word_at (t !! (i + length s))).

(** The text contains the skill as a whole word, letter case aside. *)
Definition contains_whole_word (skill text : string) : bool :=
  let s := chars (str_lower skill) in
  let t := chars (str_lower text) in
  existsb (whole_word_at s t) (seq 0 (S (length t))).

(** The skill begins and ends with a word character. *)
Definition word_edged (skill : string) : bool :=
  word_at (head (chars (str_lower skill))) && word_at (last (chars (str_lower skill))).

(** ** What a pattern matches

    [matches r prev m rest]: the pattern [r] can match the text [m] at a
    position where [prev] is the character before and [rest] is what
    follows [m]. *)

(** The character before the position reached by reading [m]. *)
Definition prev_after (prev : option ascii) (m : list ascii) : option ascii :=
  match last m with Some c => Some c | None => prev end.

Inductive matches : regex -> option ascii -> list ascii -> list ascii -> Prop :=
| matches_Chr c prev rest : matches (Chr c) prev [c] rest
| matches_Cls (p : ascii -> bool) c prev rest :
    p c = true -> matches (Cls p) prev [c] rest
| matches_Bnd prev rest :
    boundary prev rest = true -> matches Bnd prev [] rest
| matches_Cat r1 r2 prev m1 m2 rest :
    matches r1 prev m1 (m2 ++ rest) ->
    matches r2 (prev_after prev m1) m2 rest ->
    matches (Cat r1 r2) prev (m1 ++ m2) rest
| matches_Opt_some r prev m rest :
    matches r prev m rest -> matches (Opt r) prev m rest
| matches_Opt_none r prev rest : matches (Opt r) prev [] rest
| matches_Rep (p : ascii -> bool) lo hi prev m rest :
    forallb p m = true -> lo <= length m ->
    (forall h, hi = Some h -> length m <= h) ->
    matches (Rep p lo hi) prev m rest.

(** The number of decimal digits in a string. *)
Definition digits (s : list ascii) : nat := length (List.filter Char.is_digit s).

(** The given strings, each followed by a newline. *)
Definition lines (l : list string) : string :=
  foldr (fun t r => t +:+ newline +:+ r) "" l.

(** The row that the loop enters for one file: the body of the loop with
    the page calls left aside. *)
Definition resume_row
    (PdfReader Document : bytes -> outcome (list (outcome string)))
    (nlp : string -> list ent) (job_keywords : list string)
    (file : uploaded_file) : row :=
  let resume_text := value (extract_text PdfReader Document file) in
  if bool_decide (resume_text = "") then extraction_failed file
  else
    let skills_found := extract_skills resume_text TARGET_SKILLS in
    {| Filename := name file;
       Name := or_not_found (extract_name resume_text nlp);
       Email := or_not_found (extract_contact_info resume_text).1;
       Phone := or_not_found (extract_contact_info resume_text).2;
       Skills_Found := sorted skills_found;
       Score := calculate_match_score skills_found job_keywords;
       Raw_Text := resume_text |}.

(** A progress call that Streamlit accepts: a fraction between 0 and 1. *)
Definition progress_ok (e : st_event) : Prop :=
  match e with
  | StProgress num den => 0 < den /\ num <= den
  | _ => True
  end.

(** [found] is the first match of [r] in [text], by what the pattern
    matches rather than by how the matcher runs: it stands in the text at
    a place where the pattern matches it, and the pattern matches
    nothing that starts further left; or nothing is found and the
    pattern matches nowhere in the text. *)
Definition leftmost_match (r : regex) (text : string) (found : option string) : Prop :=
  match found with
  | Some m =>
      exists pre rest,
        chars text = pre ++ chars m ++ rest /\
        matches r (last pre) (chars m) rest /\
        forall pre' m' rest',
          chars text = pre' ++ m' ++ rest' ->
          matches r (last pre') m' rest' -> length pre <= length pre'
  | None =>
      forall pre m rest,
        chars text = pre ++ m ++ rest -> ~ matches r (last pre) m rest
  end.

(** * Properties *)

(** ** Searching *)

Section Search.

Variable r : regex.

Lemma drop_cons_lookup {A} (l : list A) i c :
  l !! i = Some c -> drop i l = c :: drop (S i) l.
Proof.
  revert i. induction l as [|x l IH]; intros [|i] H; simplify_eq/=; auto.
Qed.

Lemma head_findall_from prev s :
  head (findall_from r 0 prev s) = search_from r prev s.
Proof.
  revert prev. induction s as [|c s IH]; intros prev; simpl.
  - destruct (match_here r prev []); reflexivity.
  - destruct (match_here r prev (c :: s)); simpl; auto.
Qed.

Lemma head_findall text : head (findall r text) = search r text.
Proof.
  unfold findall, search. rewrite <- head_findall_from.
  destruct (findall_from r 0 None (chars text)); reflexivity.
Qed.

(** [search_from] started at offset [i] stops at the least offset from
    [i] on where a match starts. *)
Lemma search_from_least l n : forall i, i + n = length l ->
  match search_from r (prev_at l i) (drop i l) with
  | Some m =>
      exists j, i <= j <= length l /\
        match_here r (prev_at l j) (drop j l) = Some m /\
        forall j', i <= j' < j -> match_here r (prev_at l j') (drop j' l) = None
  | None =>
      forall j, i <= j <= length l -> match_here r (prev_at l j) (drop j l) = None
  end.
Proof.
  induction n as [|n IH]; intros i Hi.
  - rewrite drop_ge by lia. simpl.
    destruct (match_here r (prev_at l i) []) as [m|] eqn:E.
    + exists i. rewrite drop_ge by lia. split; [lia|]. split; [done|]. intros; lia.
    + intros j Hj. replace j with i by lia. rewrite drop_ge by lia. done.
  - destruct (lookup_lt_is_Some_2 l i) as [c Hc]; [lia|].
    rewrite (drop_cons_lookup _ _ _ Hc). simpl.
    destruct (match_here r (prev_at l i) (c :: drop (S i) l)) as [m|] eqn:E.
    + exists i. rewrite (drop_cons_lookup _ _ _ Hc).
      split; [lia|]. split; [done|]. intros; lia.
    + specialize (IH (S i)). simpl in IH. rewrite Hc in IH.
      destruct (search_from r (Some c) (drop (S i) l)) as [m|];
        [destruct IH as (j & Hj & Hm & Hmin); [lia|]|].
      * exists j. split; [lia|]. split; [done|]. intros j' Hj'.
        destruct (decide (j' = i)) as [->|];
          [by rewrite (drop_cons_lookup _ _ _ Hc)|apply Hmin; lia].
      * intros j Hj. destruct (decide (j = i)) as [->|];
          [by rewrite (drop_cons_lookup _ _ _ Hc)|apply IH; lia].
Qed.

Lemma search_first_match text : first_match r text (search r text).
Proof.
  unfold search. pose proof (search_from_least (chars text) (length (chars text)) 0) as H.
  simpl in H. rewrite drop_0 in H.
  destruct (search_from r None (chars text)) as [m|]; simpl.
  - destruct H as (j & Hj & Hm & Hmin); [lia|]. exists j. split.
    + unfold match_at. rewrite bool_decide_true by lia. by rewrite Hm.
    + intros j' Hj'. unfold match_at. rewrite bool_decide_true by lia.
      rewrite Hmin by lia. done.
  - intros i. unfold match_at. case_bool_decide; [|done].
    rewrite H by lia. done.
Qed.

End Search.

(** ** Contact information *)

(** C10: the phone pattern carries no anchor, so a text that is a run of
    eleven digits yields the first ten of them as the phone number. *)
Theorem phone_pattern_not_anchored :
  exists text : string,
    digit_run text 0 11 = true /\
    (extract_contact_info text).2 = Some "1234567890" /\
    chars "1234567890" = take 10 (chars text).
Proof. exists "12345678901". repeat split; vm_compute; reflexivity. Qed.

(** ** Empty text *)

Lemma skill_not_in_empty_text skill : skill_in_text (str_lower "") skill = false.
Proof. reflexivity. Qed.

Lemma found_skills_empty_text skills_list : found_skills "" skills_list = ∅.
Proof.
  unfold found_skills. cbv zeta.
  induction skills_list as [|skill rest IH]; [done|].
  cbn [foldl]. rewrite skill_not_in_empty_text. exact IH.
Qed.

Lemma no_ents_on_empty_text nlp_model : ents_within nlp_model -> nlp_model "" = [].
Proof.
  intros Hin. destruct (nlp_model "") as [|e l] eqn:E; [done|].
  destruct (Hin "" e) as [H1 H2]; [rewrite E; left|]. simpl in H2. lia.
Qed.

(** C5: on the empty text [extract_name] finds no name (the pipeline
    reports entities only as non-empty ranges of the text),
    [extract_contact_info] finds neither email nor phone,
    [extract_skills] returns no skill whatever the vocabulary, and the
    score against any job keywords is 0.  Each of these is a value of a
    total function: none of them fails. *)
Theorem empty_text_yields_nothing
    (nlp_model : string -> list ent) (skills_list job_keywords : list string) :
  ents_within nlp_model ->
  extract_name "" nlp_model = None /\
  extract_contact_info "" = (None, None) /\
  extract_skills "" skills_list = [] /\
  calculate_match_score (extract_skills "" skills_list) job_keywords = 0%Z.
Proof.
  intros Hin. unfold extract_name, extract_skills.
  rewrite (no_ents_on_empty_text _ Hin), found_skills_empty_text.
  rewrite elements_empty. repeat split.
  unfold calculate_match_score. simpl.
  rewrite intersection_empty_l_L, size_empty. reflexivity.
Qed.

Lemma empty_text_yields_nothing_witness :
  extract_name "" (fun text => if bool_decide (text = "") then [] else [Ent 0 1 "PERSON"]) = None /\
  extract_contact_info "" = (None, None) /\
  extract_skills "" TARGET_SKILLS = [] /\
  calculate_match_score (extract_skills "" TARGET_SKILLS) ["python"; "sql"] = 0%Z.
Proof.
  apply empty_text_yields_nothing.
  intros text e. case_bool_decide as Ht.
  - intros H. inversion H.
  - intros H. apply list_elem_of_singleton in H. subst e. simpl. split; [lia|].
    destruct text as [|c text]; [done|]. simpl. lia.
Defined.

(** ** Score *)

Lemma size_list_to_set_distinct (l : list string) :
  size (list_to_set l : gset string) = length (distinct l).
Proof.
  unfold distinct.
  rewrite <- (size_list_to_set (C:=gset string)) by apply NoDup_remove_dups.
  f_equal. apply set_eq. intros x.
  rewrite !elem_of_list_to_set, elem_of_remove_dups. done.
Qed.

Lemma common_skills_as_list (A B : list string) :
  (list_to_set A ∩ list_to_set B : gset string) = list_to_set (common A B).
Proof.
  apply set_eq. intros x. unfold common.
  rewrite elem_of_intersection, !elem_of_list_to_set, list_elem_of_filter.
  tauto.
Qed.

(** C2: for all skill lists [A] and [B], [calculate_match_score A B] is
    the number of distinct strings that occur in both; it is not negative
    and exceeds neither the number of distinct members of [A] nor that of
    [B]. *)
Theorem calculate_match_score_intersection (A B : list string) :
  (forall x, x ∈ common A B <-> x ∈ A /\ x ∈ B) /\
  calculate_match_score A B = Z.of_nat (length (distinct (common A B))) /\
  (0 <= calculate_match_score A B)%Z /\
  (calculate_match_score A B
     <= Z.min (Z.of_nat (length (distinct A))) (Z.of_nat (length (distinct B))))%Z.
Proof.
  split; [intros x; unfold common; rewrite list_elem_of_filter; tauto|].
  unfold calculate_match_score. cbv zeta.
  split; [by rewrite common_skills_as_list, size_list_to_set_distinct|].
  split; [lia|].
  rewrite <- !size_list_to_set_distinct.
  apply Z.min_glb; apply inj_le, subseteq_size;
    [apply intersection_subseteq_l|apply intersection_subseteq_r].
Qed.

(** ** Skills *)

Lemma elem_of_found_loop (text_lower : string) (skills_list : list string) :
  forall (found : gset string) (x : string),
    x ∈ foldl (fun found skill =>
                 if skill_in_text text_lower skill then found ∪ {[ skill ]} else found)
              found skills_list
    <-> x ∈ found \/ (x ∈ skills_list /\ skill_in_text text_lower x = true).
Proof.
  induction skills_list as [|skill rest IH]; intros found x; simpl.
  - split; [auto|]. intros [?|[H _]]; [done|inversion H].
  - rewrite IH, elem_of_cons.
    destruct (skill_in_text text_lower skill) eqn:E.
    + rewrite elem_of_union, elem_of_singleton.
      split; [intros [[?| ->]|[? ?]]|intros [?|[[ -> |?] ?]]]; auto.
    + split; [intros [?|[? ?]]|intros [?|[[ -> |?] ?]]]; auto. congruence.
Qed.

(** A skill is found exactly when it is in the vocabulary and its
    pattern has a match in the lowercased text. *)
Lemma elem_of_found_skills text skills_list x :
  x ∈ found_skills text skills_list
  <-> x ∈ skills_list /\ skill_in_text (str_lower text) x = true.
Proof.
  unfold found_skills. cbv zeta. rewrite elem_of_found_loop.
  rewrite elem_of_empty. tauto.
Qed.

Lemma elem_of_extract_skills text skills_list x :
  x ∈ extract_skills text skills_list
  <-> x ∈ skills_list /\ skill_in_text (str_lower text) x = true.
Proof. unfold extract_skills. rewrite elem_of_elements. apply elem_of_found_skills. Qed.

(** C9: the set of skills found depends on the vocabulary only through
    its members: two vocabularies that are permutations of each other
    give the same set, and the returned lists have the same members.
    Running the extraction again, on the same text with the skills just
    found as vocabulary, gives that same set back; and the returned list
    holds exactly the members of the set. *)
Theorem extract_skills_order_independent (text : string) (v v' : list string) :
  v ≡ₚ v' ->
  found_skills text v = found_skills text v' /\
  extract_skills text v ≡ₚ extract_skills text v' /\
  found_skills text (extract_skills text v) = found_skills text v /\
  list_to_set (extract_skills text v) = found_skills text v.
Proof.
  intros Hp.
  assert (found_skills text v = found_skills text v') as Heq.
  { apply set_eq. intros x. rewrite !elem_of_found_skills. by rewrite Hp. }
  split; [exact Heq|]. split; [unfold extract_skills; by rewrite Heq|]. split.
  - apply set_eq. intros x.
    rewrite elem_of_found_skills, elem_of_extract_skills, elem_of_found_skills. tauto.
  - apply list_to_set_elements_L.
Qed.

Lemma extract_skills_order_independent_witness :
  found_skills "Java and SQL, some Python" ["python"; "java"; "sql"]
    = found_skills "Java and SQL, some Python" ["sql"; "python"; "java"] /\
  extract_skills "Java and SQL, some Python" ["python"; "java"; "sql"]
    ≡ₚ extract_skills "Java and SQL, some Python" ["sql"; "python"; "java"] /\
  found_skills "Java and SQL, some Python"
      (extract_skills "Java and SQL, some Python" ["python"; "java"; "sql"])
    = found_skills "Java and SQL, some Python" ["python"; "java"; "sql"] /\
  list_to_set (extract_skills "Java and SQL, some Python" ["python"; "java"; "sql"])
    = found_skills "Java and SQL, some Python" ["python"; "java"; "sql"].
Proof.
  apply extract_skills_order_independent.
  symmetry. apply (Permutation_cons_append ["python"; "java"] "sql").
Defined.

(** ** Candidate name *)

Lemma more_than_one_token_test name :
  (1 <? length (str_split name))%nat = true <-> more_than_one_token name.
Proof. unfold more_than_one_token. apply Nat.ltb_lt. Qed.

(** The loop returns the first name of more than one token and passes
    over the list only when there is none. *)
Lemma first_multi_word_spec names :
  match first_multi_word names with
  | Some name =>
      exists i, names !! i = Some name /\ more_than_one_token name /\
        forall j n, j < i -> names !! j = Some n -> ~ more_than_one_token n
  | None => forall n, n ∈ names -> ~ more_than_one_token n
  end.
Proof.
  induction names as [|name rest IH]; simpl.
  - intros n H. inversion H.
  - destruct (1 <? length (str_split name))%nat eqn:E.
    + exists 0. split; [done|]. split; [by apply more_than_one_token_test|].
      intros; lia.
    + assert (~ more_than_one_token name) as Hname.
      { rewrite <- more_than_one_token_test. congruence. }
      destruct (first_multi_word rest) as [found|].
      * destruct IH as (i & Hi & Hm & Hmin). exists (S i).
        split; [done|]. split; [done|].
        intros [|j] n Hj Hn; simplify_eq/=; [done|]. apply (Hmin j); [lia|done].
      * intros n [->|Hn]%elem_of_cons; auto.
  Qed.

Lemma person_names_cons text e ents :
  person_names text (e :: ents)
  = if decide (label_ e = "PERSON")
    then ent_text text e :: person_names text ents
    else person_names text ents.
Proof.
  unfold person_names. destruct (decide (label_ e = "PERSON")) as [Hl|Hl].
  - by rewrite filter_cons_True.
  - by rewrite filter_cons_False.
Qed.

(** The loop stops at the first PERSON span of more than one token. *)
Lemma first_multi_word_of_person text ents : forall i e,
  ents !! i = Some e -> label_ e = "PERSON" ->
  more_than_one_token (ent_text text e) ->
  (forall j e', j < i -> ents !! j = Some e' -> label_ e' = "PERSON" ->
     ~ more_than_one_token (ent_text text e')) ->
  first_multi_word (person_names text ents) = Some (ent_text text e).
Proof.
  induction ents as [|e0 ents IH]; intros i e Hi Hl Hm Hbefore; [done|].
  rewrite person_names_cons. destruct i as [|i].
  - injection Hi as ->. rewrite decide_True by done. simpl.
    by rewrite (proj2 (more_than_one_token_test _) Hm).
  - simpl in Hi.
    assert (first_multi_word (person_names text ents) = Some (ent_text text e))
      as Hrest.
    { apply (IH i); [done..|]. intros j e' Hj. apply (Hbefore (S j)). lia. }
    destruct (decide (label_ e0 = "PERSON")) as [Hl0|_]; [|done].
    simpl. destruct (1 <? length (str_split (ent_text text e0))) eqn:E; [|done].
    apply more_than_one_token_test in E.
    destruct (Hbefore 0 e0); [lia|done..].
Qed.

Lemma first_multi_word_no_person text ents :
  (forall e', e' ∈ ents -> label_ e' = "PERSON" ->
     ~ more_than_one_token (ent_text text e')) ->
  first_multi_word (person_names text ents) = None.
Proof.
  induction ents as [|e0 ents IH]; intros Hnone; [done|].
  rewrite person_names_cons.
  assert (first_multi_word (person_names text ents) = None) as Hrest.
  { apply IH. intros e' He'. apply Hnone. by right. }
  destruct (decide (label_ e0 = "PERSON")) as [Hl0|_]; [|done].
  simpl. destruct (1 <? length (str_split (ent_text text e0))) eqn:E; [|done].
  apply more_than_one_token_test in E. destruct (Hnone e0); [left|done..].
Qed.

Lemma head_person_names text ents : forall i e,
  ents !! i = Some e -> label_ e = "PERSON" ->
  (forall j e', j < i -> ents !! j = Some e' -> label_ e' <> "PERSON") ->
  head (person_names text ents) = Some (ent_text text e).
Proof.
  induction ents as [|e0 ents IH]; intros i e Hi Hl Hbefore; [done|].
  rewrite person_names_cons. destruct i as [|i].
  - injection Hi as ->. by rewrite decide_True.
  - simpl in Hi. rewrite decide_False by (apply (Hbefore 0); [lia|done]).
    apply (IH i); [done..|]. intros j e' Hj. apply (Hbefore (S j)). lia.
Qed.

Lemma person_names_no_person text ents :
  (forall e, e ∈ ents -> label_ e <> "PERSON") -> person_names text ents = [].
Proof.
  induction ents as [|e0 ents IH]; intros Hnone; [done|].
  rewrite person_names_cons, decide_False by (apply Hnone; left).
  apply IH. intros e He. apply Hnone. by right.
Qed.

(** C7: with [ents] the spans that the pipeline reports on the text, in
    its order: a span labelled PERSON whose text has more than one token,
    with no such PERSON span before it, gives the result; when no PERSON
    span has more than one token, the result is the text of the first
    span labelled PERSON; and when no span is labelled PERSON the result
    is no name.  Spans under other labels play no part. *)
Theorem extract_name_policy (text : string) (nlp_model : string -> list ent) :
  let ents := nlp_model text in
  (forall i e,
      ents !! i = Some e -> label_ e = "PERSON" ->
      more_than_one_token (ent_text text e) ->
      (forall j e', j < i -> ents !! j = Some e' -> label_ e' = "PERSON" ->
         ~ more_than_one_token (ent_text text e')) ->
      extract_name text nlp_model = Some (ent_text text e)) /\
  (forall i e,
      ents !! i = Some e -> label_ e = "PERSON" ->
      (forall j e', j < i -> ents !! j = Some e' -> label_ e' <> "PERSON") ->
      (forall e', e' ∈ ents -> label_ e' = "PERSON" ->
         ~ more_than_one_token (ent_text text e')) ->
      extract_name text nlp_model = Some (ent_text text e)) /\
  ((forall e, e ∈ ents -> label_ e <> "PERSON") ->
      extract_name text nlp_model = None).
Proof.
  intros ents. unfold extract_name. cbv zeta. fold ents. repeat split.
  - intros i e Hi Hl Hm Hbefore.
    by rewrite (first_multi_word_of_person text ents i e).
  - intros i e Hi Hl Hbefore Hnone.
    rewrite (first_multi_word_no_person text ents Hnone).
    by apply (head_person_names text ents i).
  - intros Hnone. by rewrite (person_names_no_person text ents Hnone).
Qed.

Lemma extract_name_policy_witness :
  extract_name "Acme Corp hired Ann and Jane Doe"
    (fun _ => [Ent 0 9 "ORG"; Ent 16 19 "PERSON"; Ent 24 32 "PERSON"])
  = Some "Jane Doe".
Proof.
  apply (proj1 (extract_name_policy "Acme Corp hired Ann and Jane Doe"
    (fun _ => [Ent 0 9 "ORG"; Ent 16 19 "PERSON"; Ent 24 32 "PERSON"]))
    2 (Ent 24 32 "PERSON")).
  - reflexivity.
  - reflexivity.
  - unfold more_than_one_token. vm_compute. lia.
  - intros [|[|j]] e' Hj He' Hl; [| |lia].
    + injection He' as <-. discriminate Hl.
    + injection He' as <-. unfold more_than_one_token. vm_compute. lia.
Defined.

(** ** Ranking *)

Lemma DataFrame_labels {A} (rows : list A) :
  (DataFrame rows).*1 = Z.of_nat <$> seq 0 (length rows).
Proof. unfold DataFrame. apply fst_zip. by rewrite length_fmap, length_seq. Qed.

Lemma DataFrame_rows {A} (rows : list A) : (DataFrame rows).*2 = rows.
Proof. unfold DataFrame. apply snd_zip. by rewrite length_fmap, length_seq. Qed.

Section RankingFacts.

Variable sort_values : frame row -> frame row.
Hypothesis sort_values_ok : sort_values_spec sort_values.

Lemma sorted_df_rows results df :
  sorted_df sort_values results = Returns df -> df.*2 ≡ₚ results.
Proof.
  destruct results as [|r results]; [done|]. intros [= <-].
  rewrite (sort_values_perm _ sort_values_ok). by rewrite DataFrame_rows.
Qed.

Lemma sorted_df_returns results :
  results <> [] -> sorted_df sort_values results
                   = Returns (sort_values (DataFrame results)).
Proof. by destruct results. Qed.

(** The ranked frame, column by column. *)
Lemma ranked_df_columns results df :
  sorted_df sort_values results = Returns df ->
  exists ranked,
    ranked_df sort_values results = Returns ranked /\
    ranked.*1 = Z.of_nat <$> seq 1 (length results) /\
    Rank <$> ranked.*2 = Z.of_nat <$> seq 1 (length results) /\
    candidate <$> ranked.*2 = df.*2.
Proof.
  intros Hdf. unfold ranked_df. rewrite Hdf. eexists. split; [reflexivity|].
  assert (length df.*2 = length results) as Hlen.
  { by rewrite (sorted_df_rows _ _ Hdf). }
  assert (forall (l : frame row),
    ((fun '(i, r) => (i, {| Rank := i; candidate := r |})) <$>
      ((fun '(i, r) => ((i + 1)%Z, r)) <$> l)).*1 = Z.succ <$> l.*1) as Hfst.
  { induction l as [|[i r] l IH]; [done|]. csimpl. by rewrite IH. }
  assert (forall (l : frame row),
    Rank <$> ((fun '(i, r) => (i, {| Rank := i; candidate := r |})) <$>
      ((fun '(i, r) => ((i + 1)%Z, r)) <$> l)).*2 = Z.succ <$> l.*1) as Hrank.
  { induction l as [|[i r] l IH]; [done|]. csimpl. by rewrite IH. }
  assert (forall (l : frame row),
    candidate <$> ((fun '(i, r) => (i, {| Rank := i; candidate := r |})) <$>
      ((fun '(i, r) => ((i + 1)%Z, r)) <$> l)).*2 = l.*2) as Hcand.
  { induction l as [|[i r] l IH]; [done|]. csimpl. by rewrite IH. }
  rewrite Hfst, Hrank, Hcand. unfold reset_index.
  rewrite DataFrame_labels, DataFrame_rows, Hlen.
  rewrite <- fmap_S_seq, <- !list_fmap_compose.
  repeat split; apply list_fmap_ext; intros; simpl; lia.
Qed.

End RankingFacts.

(** C8: when there are candidate records to rank, the ranked frame
    carries the ranks 1, 2, ..., n down its rows, n the number of
    records, as index and as ['Rank'] column alike: the first row has
    rank 1 and no rank is skipped or repeated; the rows are those of the
    sorted frame, in its order. *)
Theorem ranks_count_from_one
    (sort_values : frame row -> frame row) (results : list row) :
  sort_values_spec sort_values -> results <> [] ->
  exists ranked,
    ranked_df sort_values results = Returns ranked /\
    Rank <$> ranked.*2 = Z.of_nat <$> seq 1 (length results) /\
    ranked.*1 = Rank <$> ranked.*2 /\
    candidate <$> ranked.*2 = (sort_values (DataFrame results)).*2.
Proof.
  intros Hok Hne.
  destruct (ranked_df_columns sort_values Hok results _
              (sorted_df_returns sort_values results Hne))
    as (ranked & Hr & Hlabels & Hranks & Hrows).
  exists ranked. repeat split; congruence.
Qed.

Lemma sort_values_merged_spec : sort_values_spec sort_values_merged.
Proof.
  split; intros df; unfold sort_values_merged.
  - apply merge_sort_Permutation.
  - apply Sorted_merge_sort. intros x y. unfold score_desc. lia.
Qed.

Lemma ranks_count_from_one_witness :
  exists ranked,
    ranked_df sort_values_merged
      [ Row "a.pdf" "Ann" "N/A" "N/A" ["sql"] 1 "sql";
        Row "b.pdf" "Bob" "N/A" "N/A" ["aws"; "sql"] 2 "aws sql" ] = Returns ranked /\
    Rank <$> ranked.*2 = Z.of_nat <$> seq 1 2 /\
    ranked.*1 = Rank <$> ranked.*2 /\
    candidate <$> ranked.*2 =
      (sort_values_merged (DataFrame
        [ Row "a.pdf" "Ann" "N/A" "N/A" ["sql"] 1 "sql";
          Row "b.pdf" "Bob" "N/A" "N/A" ["aws"; "sql"] 2 "aws sql" ])).*2.
Proof.
  apply (ranks_count_from_one sort_values_merged
    [ Row "a.pdf" "Ann" "N/A" "N/A" ["sql"] 1 "sql";
      Row "b.pdf" "Bob" "N/A" "N/A" ["aws"; "sql"] 2 "aws sql" ]).
  - exact sort_values_merged_spec.
  - discriminate.
Defined.

(** *** Small frames *)

Lemma compare_exchange_cases x y :
  (compare_exchange x y = (x, y) /\ (Score x.2 <= Score y.2)%Z) \/
  (compare_exchange x y = (y, x) /\ (Score y.2 < Score x.2)%Z).
Proof.
  unfold compare_exchange. destruct (Z.ltb_spec (Score y.2) (Score x.2)); auto.
Qed.

Ltac split_exchanges :=
  repeat match goal with
  | |- context [compare_exchange ?x ?y] =>
      destruct (compare_exchange_cases x y) as [[-> ?]|[-> ?]]; cbn beta iota zeta
  end.

Lemma bitonic4_Permutation l : bitonic4 l ≡ₚ l.
Proof.
  destruct l as [|a [|b [|c [|d [|e l]]]]]; try reflexivity;
    unfold bitonic4; split_exchanges; solve_Permutation.
Qed.

Lemma bitonic4_Sorted l :
  length l <= 4 ->
  Sorted (fun x y : Z * row => (Score x.2 <= Score y.2)%Z) (bitonic4 l).
Proof.
  destruct l as [|a [|b [|c [|d [|e l]]]]]; simpl; intros Hlen; try lia;
    unfold bitonic4; split_exchanges;
    repeat (constructor; try lia).
Qed.

(** Where it is defined, the sort of a small frame rearranges the rows
    into descending order of score. *)
Lemma sort_values_small_sorts df out :
  sort_values_small df = Some out -> out ≡ₚ df /\ Sorted score_desc out.
Proof.
  unfold sort_values_small. case_bool_decide as Hlen; [|done]. intros [= <-]. split.
  - by rewrite reverse_Permutation, bitonic4_Permutation, reverse_Permutation.
  - pose proof (Sorted_reverse _ _
      (bitonic4_Sorted (reverse df) ltac:(by rewrite length_reverse))) as H.
    apply (Sorted_fmap id _ score_desc) in H; [by rewrite list_fmap_id in H|].
    unfold flip, score_desc, id. intros; lia.
Qed.

Lemma sort_values_small_covers df :
  length df <= 4 ->
  sort_values_small df
  = Some (default (sort_values_merged df) (sort_values_small df)).
Proof. intros H. unfold sort_values_small. by rewrite bool_decide_true. Qed.




(** ** Text extraction and the batch *)

Section ExtractionFacts.

Variable PdfReader : bytes -> outcome (list (outcome string)).
Variable Document : bytes -> outcome (list (outcome string)).
Variable nlp : string -> list ent.

(** A file of any other extension: no text, one warning. *)
Lemma extract_text_unsupported file :
  str_lower (splitext_ext (name file)) <> ".pdf" ->
  str_lower (splitext_ext (name file)) <> ".docx" ->
  extract_text PdfReader Document file
  = ("", [StWarning ("Unsupported file type: " +:+ name file)]).
Proof.
  intros Hpdf Hdocx. unfold extract_text.
  rewrite !bool_decide_false by done. reflexivity.
Qed.

(** A document that the reader cannot open: no text, one warning. *)
Lemma extract_text_from_pdf_unopened content e :
  PdfReader content = Raises e ->
  extract_text_from_pdf PdfReader content
  = ("", [StWarning ("Could not read PDF: " +:+ e)]).
Proof. intros H. unfold extract_text_from_pdf. rewrite H. reflexivity. Qed.

Lemma extract_text_from_docx_unopened content e :
  Document content = Raises e ->
  extract_text_from_docx Document content
  = ("", [StWarning ("Could not read DOCX: " +:+ e)]).
Proof. intros H. unfold extract_text_from_docx. rewrite H. reflexivity. Qed.

(** A page that raises ends the loop; the text of the pages before it
    stays in [text]. *)
Lemma pdf_pages_raise before e after text :
  Forall (fun p => exists s, p = Returns s) before ->
  exists text', pdf_pages (before ++ Raises e :: after) text = (text', Some e) /\
                pdf_pages before text = (text', None).
Proof.
  intros Hbefore. revert text.
  induction Hbefore as [|p before [s ->] _ IH]; intros text; simpl; eauto.
Qed.

(** A failure on a page is caught: one warning, and the text of the
    pages before it. *)
Lemma extract_text_from_pdf_page_failure content before e after :
  PdfReader content = Returns (before ++ Raises e :: after) ->
  Forall (fun p => exists s, p = Returns s) before ->
  warnings (events (extract_text_from_pdf PdfReader content))
    = ["Could not read PDF: " +:+ e] /\
  value (extract_text_from_pdf PdfReader content) = (pdf_pages before "").1.
Proof.
  intros Hopen Hbefore. unfold extract_text_from_pdf. rewrite Hopen.
  destruct (pdf_pages_raise before e after "" Hbefore) as (text' & -> & ->).
  split; reflexivity.
Qed.

(** The batch goes on after every file: each file adds one row. *)
Lemma resume_loop_rows files : forall i total job_keywords results,
  length (value (resume_loop PdfReader Document nlp files i total job_keywords results))
  = length results + length files.
Proof.
  induction files as [|file rest IH]; intros i total job_keywords results.
  - simpl. lia.
  - cbn [resume_loop]. unfold value, mbind, ui_bind, emit in *.
    destruct (extract_text PdfReader Document file) as [resume_text log].
    case_bool_decide.
    + specialize (IH (i + 1) total job_keywords (results ++ [extraction_failed file])).
      destruct (resume_loop _ _ _ rest _ _ _ _) as [out log'].
      simpl in *. rewrite IH, length_app. simpl. lia.
    + destruct (extract_contact_info resume_text) as [email phone].
      match goal with
      | |- context [resume_loop _ _ _ rest ?i ?t ?j ?r] =>
          specialize (IH i t j r); destruct (resume_loop _ _ _ rest i t j r) as [out log']
      end.
      simpl in *. rewrite IH, length_app. simpl. lia.
Qed.

(** A file whose text came back empty is entered as the placeholder. *)
Lemma resume_loop_empty_text file i total job_keywords results :
  value (extract_text PdfReader Document file) = "" ->
  value (resume_loop PdfReader Document nlp [file] i total job_keywords results)
  = results ++ [extraction_failed file].
Proof.
  intros Hempty. cbn [resume_loop]. unfold value, mbind, ui_bind, emit in *.
  destruct (extract_text PdfReader Document file) as [resume_text log].
  simpl in Hempty. subst resume_text. reflexivity.
Qed.

End ExtractionFacts.

(** C4 at a PDF whose second page cannot be read: the exception is
    caught and a warning is shown, but the text handed back is that of
    the first page, not the empty text; the file is then processed as a
    readable resume and gets no placeholder entry. *)
Theorem extract_text_keeps_pages_before_failure :
  extract_text pdf_bad_second_page docx_unreadable (UploadedFile "cv.pdf" [])
  = ("Jane Doe, Python developer" +:+ newline,
     [StWarning "Could not read PDF: Unexpected end of stream"]) /\
  value (process_resumes pdf_bad_second_page docx_unreadable no_entities
           [UploadedFile "cv.pdf" []; UploadedFile "notes.txt" []] "Python, SQL")
  = [ {| Filename := "cv.pdf"; Name := "Not Found"; Email := "Not Found";
         Phone := "Not Found"; Skills_Found := ["python"]; Score := 1;
         Raw_Text := "Jane Doe, Python developer" +:+ newline |};
      extraction_failed (UploadedFile "notes.txt" []) ].
Proof. split; vm_compute; reflexivity. Qed.

(** ** Whole-word matching *)

(** A literal consumes itself and nothing else. *)
Lemma run_lit (tail : regex) (l : list ascii) : forall prev s k,
  run (lit l tail) prev s k =
  if bool_decide (take (length l) s = l)
  then run tail (match last l with Some c => Some c | None => prev end)
         (drop (length l) s) k
  else None.
Proof.
  induction l as [|c l IH]; intros prev s k.
  - cbn [lit length last]. rewrite take_0, drop_0. by rewrite bool_decide_true.
  - cbn [lit run]. destruct s as [|x s].
    + by rewrite bool_decide_false.
    + destruct (Ascii.eqb_spec x c) as [->|Hne].
      * rewrite IH, last_cons. cbn [length take drop].
        destruct (decide (take (length l) s = l)) as [Heq|Hneq].
        -- rewrite !bool_decide_true by congruence. by destruct (last l).
        -- rewrite !bool_decide_false by congruence. done.
      * rewrite bool_decide_false; [done|]. cbn [length take]. congruence.
Qed.

(** Where the pattern of a skill matches. *)
Lemma skill_pattern_match_here (sl : string) prev s :
  is_Some (match_here (skill_pattern sl) prev s) <->
  boundary prev s = true /\
  take (length (chars sl)) s = chars sl /\
  boundary (match last (chars sl) with Some c => Some c | None => prev end)
           (drop (length (chars sl)) s) = true.
Proof.
  unfold match_here, skill_pattern. cbn [run]. rewrite run_lit. cbn [run].
  destruct (boundary prev s); [|split; [intros [? [=]]|intros [[=] _]]].
  case_bool_decide as Hpre; [|split; [intros [? [=]]|intros (_ & ? & _); done]].
  destruct (boundary _ (drop _ s)); [|split; [intros [? [=]]|intros (_ & _ & [=])]].
  split; [done|]. intros _. eexists; reflexivity.
Qed.

Lemma skill_pattern_whole_word (skill : string) (t : list ascii) (i : nat) :
  word_edged skill = true ->
  is_Some (match_here (skill_pattern (str_lower skill)) (prev_at t i) (drop i t))
  <-> whole_word_at (chars (str_lower skill)) t i = true.
Proof.
  unfold word_edged, whole_word_at. intros [Hhead Hlast]%andb_prop.
  rewrite skill_pattern_match_here.
  set (l := chars (str_lower skill)) in *.
  rewrite !andb_true_iff, bool_decide_eq_true, !negb_true_iff.
  destruct (last l) as [c|] eqn:El; [|done].
  assert (take (length l) (drop i t) = l -> word_at (head (drop i t)) = true) as Hh.
  { intros Hpre. rewrite <- Hhead. f_equal.
    destruct l as [|c0 l0]; [done|]. destruct (drop i t); [done|].
    cbn [length take] in Hpre. by simplify_eq/=. }
  assert (head (drop (length l) (drop i t)) = t !! (i + length l)) as Ha.
  { by rewrite head_lookup, !lookup_drop, Nat.add_0_r. }
  unfold boundary. rewrite Ha, Hlast.
  split.
  - intros (Hb & Hpre & Hafter). rewrite (Hh Hpre) in Hb.
    destruct (word_at (prev_at t i)), (word_at (t !! (i + length l)));
      simplify_eq/=; done.
  - intros ((Hpre & Hb) & Hafter). by rewrite (Hh Hpre), Hb, Hafter.
Qed.

Lemma search_is_Some_iff (r : regex) (text : string) :
  is_Some (search r text) <->
  exists i, i <= length (chars text) /\
    is_Some (match_here r (prev_at (chars text) i) (drop i (chars text))).
Proof.
  unfold search. rewrite fmap_is_Some.
  pose proof (search_from_least r (chars text) (length (chars text)) 0 eq_refl) as H.
  simpl in H. rewrite drop_0 in H.
  destruct (search_from r None (chars text)) as [m|].
  - destruct H as (j & Hj & Hm & _). split; [|by eauto].
    intros _. exists j. split; [lia|]. by rewrite Hm.
  - split; [intros [? [=]]|]. intros (i & Hi & [m Hm]).
    rewrite H in Hm by lia. done.
Qed.

(** For a skill that begins and ends with a word character, the pattern
    is found in the text exactly when the text contains the skill as a
    whole word, letter case aside. *)
Lemma skill_in_text_whole_word (skill text : string) :
  word_edged skill = true ->
  skill_in_text (str_lower text) skill = contains_whole_word skill text.
Proof.
  intros Hedged. apply eq_true_iff_eq.
  unfold skill_in_text, contains_whole_word.
  rewrite bool_decide_eq_true, search_is_Some_iff, existsb_exists.
  split.
  - intros (i & Hi & Hm). exists i. split; [apply in_seq; lia|].
    by apply skill_pattern_whole_word.
  - intros (i & Hi%in_seq & Hw). exists i. split; [lia|].
    by apply skill_pattern_whole_word.
Qed.

(** Where whole-word matching works: a vocabulary entry that
    begins and ends with a word character is among the extracted skills
    exactly when the text contains it as a whole word. *)
Lemma extract_skills_whole_word (text : string) (skills_list : list string) skill :
  skill ∈ skills_list -> word_edged skill = true ->
  skill ∈ extract_skills text skills_list <-> contains_whole_word skill text = true.
Proof.
  intros Hin Hedged. rewrite elem_of_extract_skills, skill_in_text_whole_word by done.
  tauto.
Qed.

(** C1 at the vocabulary entry ["c++"]: the entry ends with a character
    that is not a word character, so the closing [\b] of its pattern asks
    for a word character right after it.  A text that contains ["C++"] as
    a whole word does not yield the skill, and a text in which it is the
    front of a longer token does. *)
Theorem extract_skills_misses_cpp :
  ("c++" ∈ TARGET_SKILLS) /\
  contains_whole_word "c++" "Skills: C++, Java" = true /\
  ("c++" ∉ extract_skills "Skills: C++, Java" TARGET_SKILLS) /\
  contains_whole_word "c++" "Standard: C++11" = false /\
  ("c++" ∈ extract_skills "Standard: C++11" TARGET_SKILLS).
Proof.
  split; [repeat constructor|]. split; [vm_compute; reflexivity|].
  split; [|split; [vm_compute; reflexivity|]].
  - rewrite elem_of_extract_skills. intros [_ H]. vm_compute in H. discriminate H.
  - rewrite elem_of_extract_skills. split; [repeat constructor|vm_compute; reflexivity].
Qed.

(** ** The processing block *)

(** The block ranks whenever it is entered: with at least one uploaded
    file there is at least one row, so the sort has its ['Score'] column. *)
Lemma process_block_ranks PdfReader Document nlp sort_values
    (uploaded_files : list uploaded_file) (job_description : string) :
  uploaded_files <> [] -> job_description <> "" ->
  exists ranked,
    value (process_block PdfReader Document nlp sort_values true
             uploaded_files job_description) = Some (Returns ranked).
Proof.
  intros Hfiles Hjd. unfold process_block.
  rewrite !bool_decide_true by done. cbn [andb].
  pose proof (resume_loop_rows PdfReader Document nlp uploaded_files 0
    (length uploaded_files)
    (extract_skills (str_lower job_description) TARGET_SKILLS) []) as Hrows.
  unfold process_resumes, value, mbind, ui_bind, emit in *.
  destruct (extract_skills (str_lower job_description) TARGET_SKILLS) as [|k ks];
    destruct (resume_loop _ _ _ uploaded_files _ _ _ _) as [results log];
    simpl in Hrows; (destruct results as [|row0 results];
      [destruct uploaded_files; simpl in Hrows; [done|lia]|]);
    unfold ranked_df; cbn [sorted_df]; eexists; reflexivity.
Qed.

(** ** The scenarios of the documentation *)

Example scenario_contact_and_skills :
  let text := "Contact Jane Doe at jane.doe@example.com or (555) 123-4567. Skills: Python, AWS, Docker." in
  extract_contact_info text = (Some "jane.doe@example.com", Some "(555) 123-4567") /\
  ["python"; "aws"; "docker"] ⊆ extract_skills text TARGET_SKILLS /\
  extract_name text (fun _ => [Ent 8 16 "PERSON"]) = Some "Jane Doe".
Proof.
  split; [vm_compute; reflexivity|]. split; [|vm_compute; reflexivity].
  intros x Hx. apply elem_of_extract_skills.
  repeat (apply elem_of_cons in Hx as [->|Hx];
          [split; [repeat constructor|vm_compute; reflexivity]|]).
  inversion Hx.
Qed.

Example scenario_java_in_javascript :
  extract_skills "I write javascript daily" ["java"; "javascript"] = ["javascript"].
Proof. vm_compute. reflexivity. Qed.

Example scenario_score :
  calculate_match_score ["python"; "sql"] ["python"; "docker"] = 1%Z.
Proof. vm_compute. reflexivity. Qed.

Example scenario_unsupported_extension :
  value (process_resumes pdf_bad_second_page docx_unreadable no_entities
           [UploadedFile "notes.txt" []; UploadedFile "cv.docx" []] "Python")
  = [ extraction_failed (UploadedFile "notes.txt" []);
      extraction_failed (UploadedFile "cv.docx" []) ].
Proof. vm_compute. reflexivity. Qed.

(** * Further properties *)

(** ** What the patterns match *)

Lemma prev_after_nil prev : prev_after prev [] = prev.
Proof. reflexivity. Qed.

Lemma prev_after_cons prev c m : prev_after prev (c :: m) = prev_after (Some c) m.
Proof. unfold prev_after. rewrite last_cons. by destruct (last m). Qed.

Lemma prev_after_app prev m1 m2 :
  prev_after prev (m1 ++ m2) = prev_after (prev_after prev m1) m2.
Proof.
  revert prev. induction m1 as [|c m1 IH]; intros prev; [done|].
  rewrite <- app_comm_cons, !prev_after_cons. apply IH.
Qed.

(** A greedy repetition stops after a run of admitted characters whose
    length is within the bounds. *)
Lemma rep_sound (p : ascii -> bool) (k : cont) out s :
  forall lo hi prev,
    rep p lo hi prev s k = Some out ->
    exists m rest, s = m ++ rest /\ forallb p m = true /\ lo <= length m /\
      (forall h, hi = Some h -> length m <= h) /\
      k (prev_after prev m) rest = Some out.
Proof.
  induction s as [|c s IH]; intros lo hi prev H.
  - simpl in H. destruct lo; [|done]. exists [], [].
    repeat split; simpl; auto; intros; lia.
  - cbn [rep] in H.
    assert ((match lo with 0 => k prev (c :: s) | S _ => None end) = Some out ->
            exists m rest, c :: s = m ++ rest /\ forallb p m = true /\ lo <= length m /\
              (forall h, hi = Some h -> length m <= h) /\
              k (prev_after prev m) rest = Some out) as Hstop.
    { destruct lo; [|done]. intros Hk. exists [], (c :: s).
      repeat split; simpl; auto; intros; lia. }
    destruct (hi_open hi && p c) eqn:E; [|by apply Hstop].
    apply andb_prop in E as [Hopen Hp].
    destruct (rep p (Nat.pred lo) (Nat.pred <$> hi) (Some c) s k) as [out'|] eqn:Er;
      [|by apply Hstop].
    injection H as ->. apply IH in Er as (m & rest & -> & Hall & Hlo & Hhi & Hk).
    exists (c :: m), rest. rewrite prev_after_cons. repeat split; simpl; auto.
    + by rewrite Hp.
    + lia.
    + intros h ->. destruct h as [|h]; [done|].
      specialize (Hhi h eq_refl). lia.
Qed.

(** Whatever the matcher accepts is a match of the pattern, and the rest
    of the pattern went on from its end. *)
Lemma run_sound (r : regex) : forall prev s (k : cont) out,
  run r prev s k = Some out ->
  exists m rest, s = m ++ rest /\ matches r prev m rest /\
    k (prev_after prev m) rest = Some out.
Proof.
  induction r as [c|p| |r1 IH1 r2 IH2|r IH|p lo hi]; intros prev s k out H;
    cbn [run] in H.
  - destruct s as [|x s]; [done|]. destruct (Ascii.eqb_spec x c) as [->|]; [|done].
    exists [c], s. repeat split; [constructor|done].
  - destruct s as [|x s]; [done|]. destruct (p x) eqn:Hp; [|done].
    exists [x], s. repeat split; [by constructor|done].
  - destruct (boundary prev s) eqn:Hb; [|done].
    exists [], s. repeat split; [by constructor|done].
  - apply IH1 in H as (m1 & rest1 & -> & Hm1 & H).
    apply IH2 in H as (m2 & rest & -> & Hm2 & H).
    exists (m1 ++ m2), rest. rewrite prev_after_app, <- app_assoc.
    repeat split; [by constructor|done].
  - destruct (run r prev s k) as [out'|] eqn:Er.
    + injection H as ->. apply IH in Er as (m & rest & -> & Hm & Hk).
      exists m, rest. repeat split; [by constructor|done].
    + exists [], s. repeat split; [apply matches_Opt_none|done].
  - apply rep_sound in H as (m & rest & -> & Hall & Hlo & Hhi & Hk).
    exists m, rest. repeat split; [by constructor|done].
Qed.

Lemma match_here_matches r prev s m :
  match_here r prev s = Some m ->
  exists rest, s = m ++ rest /\ matches r prev m rest.
Proof.
  unfold match_here. destruct (run r prev s _) as [rest|] eqn:E; [|done].
  intros [= <-]. apply run_sound in E as (m & rest' & -> & Hm & [= ->]).
  exists rest. rewrite length_app, Nat.add_sub, take_app_length. done.
Qed.

Lemma chars_str l : chars (str l) = l.
Proof. apply list_ascii_of_string_of_list_ascii. Qed.

Lemma str_chars s : str (chars s) = s.
Proof. apply string_of_list_ascii_of_string. Qed.

Lemma prev_at_take (l : list ascii) i : i <= length l -> prev_at l i = last (take i l).
Proof.
  intros Hi. destruct i as [|i]; [done|]. simpl.
  destruct (lookup_lt_is_Some_2 l i) as [c Hc]; [lia|].
  rewrite (take_S_r _ _ _ Hc), last_snoc. done.
Qed.

(** What [re.search] returns stands in the text, and is a match of the
    pattern at that place. *)
Lemma search_matches r text m :
  search r text = Some m ->
  exists pre rest, chars text = pre ++ chars m ++ rest /\
    matches r (last pre) (chars m) rest.
Proof.
  intros Hs. pose proof (search_first_match r text) as Hf. rewrite Hs in Hf.
  destruct Hf as (i & Hi & _). unfold match_at in Hi.
  case_bool_decide as Hle; [|done].
  destruct (match_here r _ _) as [m'|] eqn:E; [|done]. injection Hi as <-.
  apply match_here_matches in E as (rest & Hdrop & Hm).
  exists (take i (chars text)), rest. rewrite chars_str, <- Hdrop, take_drop.
  split; [done|]. by rewrite <- prev_at_take.
Qed.

(** A run of admitted characters within the bounds is not missed. *)
Lemma rep_complete (p : ascii -> bool) (k : cont) rest m :
  forall lo hi prev,
    forallb p m = true -> lo <= length m ->
    (forall h, hi = Some h -> length m <= h) ->
    is_Some (k (prev_after prev m) rest) ->
    is_Some (rep p lo hi prev (m ++ rest) k).
Proof.
  induction m as [|c m IH]; intros lo hi prev Hall Hlo Hhi Hk.
  - simpl in Hlo. assert (lo = 0) as -> by lia. rewrite prev_after_nil in Hk.
    simpl. destruct rest as [|c rest]; simpl; [done|].
    destruct (hi_open hi && p c); [|done].
    by destruct (rep p _ _ (Some c) rest k).
  - simpl in Hall. apply andb_prop in Hall as [Hc Hall].
    rewrite prev_after_cons in Hk. cbn [app rep]. rewrite Hc.
    assert (hi_open hi = true) as ->.
    { destruct hi as [[|h]|]; try done. specialize (Hhi 0 eq_refl). simpl in Hhi. lia. }
    cbn [andb].
    assert (is_Some (rep p (Nat.pred lo) (Nat.pred <$> hi) (Some c) (m ++ rest) k))
      as [out ->]; [|by eexists].
    apply IH; [done|simpl in Hlo; lia| |done].
    intros h Hh. destruct hi as [h0|]; [|done]. simpl in Hh. injection Hh as <-.
    specialize (Hhi h0 eq_refl). simpl in Hhi. lia.
Qed.

(** Whatever the pattern matches, the matcher does not miss, provided
    the rest of the pattern can go on from there. *)
Lemma run_complete r prev m rest :
  matches r prev m rest ->
  forall k : cont, is_Some (k (prev_after prev m) rest) ->
    is_Some (run r prev (m ++ rest) k).
Proof.
  induction 1 as [c prev rest|p c prev rest Hp|prev rest Hb
                 |r1 r2 prev m1 m2 rest _ IH1 _ IH2
                 |r prev m rest _ IH|r prev rest
                 |p lo hi prev m rest Hall Hlo Hhi]; intros k Hk; cbn [run].
  - simpl. by rewrite Ascii.eqb_refl.
  - simpl. by rewrite Hp.
  - simpl. by rewrite Hb.
  - rewrite <- app_assoc. apply IH1. apply IH2. by rewrite <- prev_after_app.
  - destruct (IH k Hk) as [out ->]. by eexists.
  - simpl. rewrite prev_after_nil in Hk. by destruct (run r prev rest k).
  - by apply rep_complete.
Qed.

Lemma match_here_complete r prev m rest :
  matches r prev m rest -> is_Some (match_here r prev (m ++ rest)).
Proof.
  intros Hm. unfold match_here.
  destruct (run_complete r prev m rest Hm (fun _ rest' => Some rest')) as [out ->];
    [by eexists|by eexists].
Qed.

(** [re.search] finds the first match of the pattern, in the sense of
    what the pattern matches. *)
Lemma search_leftmost_match r text : leftmost_match r text (search r text).
Proof.
  unfold search.
  pose proof (search_from_least r (chars text) (length (chars text)) 0 eq_refl) as H.
  simpl in H. rewrite drop_0 in H.
  assert (forall pre m rest,
            chars text = pre ++ m ++ rest -> matches r (last pre) m rest ->
            is_Some (match_here r (prev_at (chars text) (length pre))
                       (drop (length pre) (chars text)))) as Hfound.
  { intros pre m rest Htext Hm.
    rewrite prev_at_take by (rewrite Htext, length_app; lia).
    rewrite Htext, take_app_length, drop_app_length.
    by apply match_here_complete. }
  destruct (search_from r None (chars text)) as [m|]; simpl.
  - destruct H as (i & Hi & Hm & Hmin).
    pose proof Hm as Hm'. apply match_here_matches in Hm' as (rest & Hdrop & Hmatch).
    exists (take i (chars text)), rest. rewrite chars_str.
    split; [by rewrite <- Hdrop, take_drop|].
    split; [by rewrite <- prev_at_take by lia|].
    intros pre' m' rest' Htext Hm''. rewrite length_take_le by lia.
    destruct (decide (i <= length pre')) as [|Hlt]; [done|].
    destruct (Hfound pre' m' rest' Htext Hm'') as [x Hx].
    rewrite Hmin in Hx by lia. done.
  - intros pre m rest Htext Hm.
    destruct (Hfound pre m rest Htext Hm) as [x Hx].
    rewrite H in Hx; [done|]. rewrite Htext, !length_app. lia.
Qed.

(** ** Contact information *)

(** C6: for every text, the email that [extract_contact_info] returns is
    the first match of the email pattern in the text: it stands in the
    text where the pattern matches it, and the pattern matches nothing
    that starts further left; no email is returned exactly when the
    pattern matches nowhere in the text.  The same holds, separately,
    for the phone pattern.  Each is the first element of what [findall]
    yields, the matches further right being left out, and it is the match
    that the matcher itself takes at that place. *)
Theorem extract_contact_info_first_match (text : string) :
  leftmost_match email_re text (extract_contact_info text).1 /\
  leftmost_match phone_re text (extract_contact_info text).2 /\
  (extract_contact_info text).1 = head (findall email_re text) /\
  (extract_contact_info text).2 = head (findall phone_re text) /\
  first_match email_re text (extract_contact_info text).1 /\
  first_match phone_re text (extract_contact_info text).2.
Proof.
  unfold extract_contact_info. simpl. rewrite !head_findall.
  repeat split; (apply search_leftmost_match || apply search_first_match).
Qed.

Lemma chars_app (a b : string) : chars (a +:+ b) = chars a ++ chars b.
Proof. induction a as [|c a IH]; [done|]. simpl. by rewrite <- IH. Qed.

Lemma str_app (l1 l2 : list ascii) : str (l1 ++ l2) = str l1 +:+ str l2.
Proof. induction l1 as [|c l1 IH]; [done|]. simpl. rewrite IH. reflexivity. Qed.

Lemma extract_contact_info_search text :
  extract_contact_info text = (search email_re text, search phone_re text).
Proof. unfold extract_contact_info. by rewrite !head_findall. Qed.

Lemma search_substring r text m :
  search r text = Some m -> exists pre post : string, text = pre +:+ m +:+ post.
Proof.
  intros (pre & rest & Heq & _)%search_matches. exists (str pre), (str rest).
  rewrite <- (str_chars m) at 1. rewrite <- !str_app, <- Heq. by rewrite str_chars.
Qed.

(** ** Contact information, continued *)

(** X1: The email and the phone number returned are pieces of the text,
    letter for letter. *)
Theorem contact_info_stands_in_text (text found : string) :
  (extract_contact_info text).1 = Some found \/
  (extract_contact_info text).2 = Some found ->
  exists pre post : string, text = pre +:+ found +:+ post.
Proof.
  rewrite extract_contact_info_search. simpl.
  intros [H|H]; by apply search_substring in H.
Qed.

Lemma contact_info_stands_in_text_witness :
  exists pre post : string,
    "call 555-123-4567 today" = pre +:+ "555-123-4567" +:+ post.
Proof.
  apply (contact_info_stands_in_text "call 555-123-4567 today" "555-123-4567").
  right. vm_compute. reflexivity.
Defined.

Lemma digits_app l1 l2 : digits (l1 ++ l2) = digits l1 + digits l2.
Proof. unfold digits. by rewrite List.filter_app, length_app. Qed.

Lemma digits_all l : forallb Char.is_digit l = true -> digits l = length l.
Proof.
  unfold digits. induction l as [|c l IH]; [done|]. simpl.
  intros [Hc Hl]%andb_prop. rewrite Hc. simpl. by rewrite IH.
Qed.

Lemma digits_nil : digits [] = 0.
Proof. reflexivity. Qed.

Lemma digits_one_other c : Char.is_digit c = false -> digits [c] = 0.
Proof. unfold digits. simpl. by intros ->. Qed.

Lemma digits_lparen : digits ["("%char] = 0.
Proof. reflexivity. Qed.

Lemma digits_rparen : digits [")"%char] = 0.
Proof. reflexivity. Qed.

Lemma phone_sep_not_digit c : phone_sep c = true -> Char.is_digit c = false.
Proof. destruct c as [[] [] [] [] [] [] [] []]; vm_compute; congruence. Qed.

Ltac invert_matches :=
  repeat match goal with
  | H : matches (Cat _ _) _ _ _ |- _ => inversion H; subst; clear H
  | H : matches (Opt _) _ _ _ |- _ => inversion H; subst; clear H
  | H : matches (Chr _) _ _ _ |- _ => inversion H; subst; clear H
  | H : matches (Cls _) _ _ _ |- _ => inversion H; subst; clear H
  | H : matches (Rep _ _ _) _ _ _ |- _ => inversion H; subst; clear H
  | H : matches Bnd _ _ _ |- _ => inversion H; subst; clear H
  end.

(** What the phone pattern matches has ten digits, in groups of three,
    three and four, and at most four other characters. *)
Lemma phone_re_matches_shape prev m rest :
  matches phone_re prev m rest -> digits m = 10 /\ 10 <= length m <= 14.
Proof.
  unfold phone_re. intros H. invert_matches.
  all: repeat match goal with
       | H : forall h, Some ?n = Some h -> _ |- _ => specialize (H n eq_refl)
       | H : phone_sep _ = true |- _ => apply phone_sep_not_digit in H
       end.
  all: rewrite ?digits_app, ?length_app;
       repeat match goal with
       | H : Char.is_digit _ = false |- _ => rewrite (digits_one_other _ H); clear H
       | H : forallb Char.is_digit _ = true |- _ => rewrite (digits_all _ H); clear H
       end;
       rewrite ?digits_nil, ?digits_lparen, ?digits_rparen; cbn [length]; lia.
Qed.

(** X2: Every phone number returned has exactly ten digits and between ten
    and fourteen characters. *)
Theorem phone_found_has_ten_digits (text phone : string) :
  (extract_contact_info text).2 = Some phone ->
  digits (chars phone) = 10 /\ 10 <= length (chars phone) <= 14.
Proof.
  rewrite extract_contact_info_search. simpl.
  intros (pre & rest & _ & Hm)%search_matches.
  by apply phone_re_matches_shape in Hm.
Qed.

Lemma phone_found_has_ten_digits_witness :
  digits (chars "(555) 123-4567") = 10 /\ 10 <= length (chars "(555) 123-4567") <= 14.
Proof.
  apply (phone_found_has_ten_digits "Jane, (555) 123-4567, jane@x.org").
  vm_compute. reflexivity.
Defined.

Lemma email_re_matches_shape prev m rest :
  matches email_re prev m rest ->
  exists local domain tld,
    m = local ++ "@"%char :: domain ++ "."%char :: tld /\
    1 <= length local /\ forallb email_local local = true /\
    1 <= length domain /\ forallb email_domain domain = true /\
    2 <= length tld /\ forallb email_tld tld = true.
Proof.
  unfold email_re. intros H. invert_matches.
  match goal with
  | |- exists _ _ _, [] ++ ?l ++ [_] ++ ?d ++ [_] ++ ?t ++ [] = _ /\ _ =>
      exists l, d, t
  end.
  rewrite app_nil_r. repeat split; auto.
Qed.

(** X3: Every email returned reads local@domain.tld: a non-empty local part
    of letters, digits and [._%+-], an at sign, a non-empty domain of
    letters, digits, dots and hyphens, a dot, and at least two closing
    characters that are letters or the bar. *)
Theorem email_found_has_shape (text email : string) :
  (extract_contact_info text).1 = Some email ->
  exists local domain tld,
    chars email = local ++ "@"%char :: domain ++ "."%char :: tld /\
    1 <= length local /\ forallb email_local local = true /\
    1 <= length domain /\ forallb email_domain domain = true /\
    2 <= length tld /\ forallb email_tld tld = true.
Proof.
  rewrite extract_contact_info_search. simpl.
  intros (pre & rest & _ & Hm)%search_matches.
  by apply email_re_matches_shape in Hm.
Qed.

Lemma email_found_has_shape_witness :
  exists local domain tld,
    chars "jane.doe@example.com" = local ++ "@"%char :: domain ++ "."%char :: tld /\
    1 <= length local /\ forallb email_local local = true /\
    1 <= length domain /\ forallb email_domain domain = true /\
    2 <= length tld /\ forallb email_tld tld = true.
Proof.
  apply (email_found_has_shape "Contact Jane Doe at jane.doe@example.com now").
  vm_compute. reflexivity.
Defined.

(** ** Skills, continued *)

(** X6: The skills returned are vocabulary entries, each listed once, also
    when the vocabulary lists an entry twice. *)
Theorem extract_skills_from_vocabulary (text : string) (skills_list : list string) :
  NoDup (extract_skills text skills_list) /\
  forall skill, skill ∈ extract_skills text skills_list -> skill ∈ skills_list.
Proof.
  split; [apply NoDup_elements|].
  intros skill H. by apply elem_of_extract_skills in H as [? _].
Qed.

Lemma lower_char_idemp c : Char.lower (Char.lower c) = Char.lower c.
Proof. destruct c as [[] [] [] [] [] [] [] []]; reflexivity. Qed.

Lemma str_lower_idemp s : str_lower (str_lower s) = str_lower s.
Proof.
  unfold str_lower. rewrite chars_str. f_equal.
  rewrite <- list_fmap_compose. apply list_fmap_ext. intros _ c _. apply lower_char_idemp.
Qed.

Lemma found_skills_lowered (text : string) (skills_list : list string) :
  found_skills (str_lower text) skills_list = found_skills text skills_list.
Proof. unfold found_skills. by rewrite str_lower_idemp. Qed.

(** X7: Lowercasing the text beforehand, as the processing block does with
    the job description, changes nothing. *)
Theorem extract_skills_of_lowered_text (text : string) (skills_list : list string) :
  extract_skills (str_lower text) skills_list = extract_skills text skills_list.
Proof. unfold extract_skills. by rewrite found_skills_lowered. Qed.

(** X8: Letter case decides nothing: texts that agree up to case, and
    vocabulary entries that agree up to case, fare alike. *)
Theorem extract_skills_case_blind (text text' skill skill' : string)
    (skills_list : list string) :
  str_lower text = str_lower text' -> str_lower skill = str_lower skill' ->
  skill ∈ skills_list -> skill' ∈ skills_list ->
  (skill ∈ extract_skills text skills_list <->
   skill' ∈ extract_skills text' skills_list).
Proof.
  intros Ht Hs Hin Hin'. rewrite !elem_of_extract_skills.
  unfold skill_in_text. rewrite Ht, Hs. tauto.
Qed.

Lemma extract_skills_case_blind_witness :
  "Python" ∈ extract_skills "I like PYTHON" ["Python"; "python"] <->
  "python" ∈ extract_skills "i like Python" ["Python"; "python"].
Proof.
  apply extract_skills_case_blind; [reflexivity|reflexivity| |].
  - repeat constructor.
  - repeat constructor.
Defined.

(** X9: Vocabularies add up: the skills found with two lists put together
    are those found with the one and those found with the other. *)
Theorem found_skills_app (text : string) (v1 v2 : list string) :
  found_skills text (v1 ++ v2) = found_skills text v1 ∪ found_skills text v2.
Proof.
  apply set_eq. intros x.
  rewrite elem_of_union, !elem_of_found_skills, elem_of_app. tauto.
Qed.

(** ** Score, continued *)

Lemma score_as_size (A B : list string) :
  calculate_match_score A B
  = Z.of_nat (size (list_to_set A ∩ list_to_set B : gset string)).
Proof. reflexivity. Qed.

(** X10: The score does not depend on which list is the resume's. *)
Theorem calculate_match_score_comm (A B : list string) :
  calculate_match_score A B = calculate_match_score B A.
Proof. rewrite !score_as_size. f_equal. f_equal. apply (comm_L (∩)). Qed.

(** X11: A list scored against itself counts its distinct members. *)
Theorem calculate_match_score_self (A : list string) :
  calculate_match_score A A = Z.of_nat (length (distinct A)).
Proof.
  rewrite score_as_size, intersection_idemp_L. by rewrite size_list_to_set_distinct.
Qed.

(** X12: A list whose members all occur in another scores no higher than the
    other against the same keywords: further skills on a resume never
    lower its score. *)
Theorem calculate_match_score_mono (A A' B : list string) :
  (forall x, x ∈ A -> x ∈ A') ->
  (calculate_match_score A B <= calculate_match_score A' B)%Z.
Proof.
  intros Hsub. rewrite !score_as_size. apply inj_le, subseteq_size.
  intros x. rewrite !elem_of_intersection, !elem_of_list_to_set.
  intros [? ?]; auto.
Qed.

Lemma calculate_match_score_mono_witness :
  (calculate_match_score ["sql"] ["sql"; "aws"]
   <= calculate_match_score ["aws"; "sql"; "aws"; "git"] ["sql"; "aws"])%Z.
Proof.
  apply calculate_match_score_mono.
  intros x ->%list_elem_of_singleton. repeat constructor.
Defined.

(** X13: The score is 0 exactly when the two lists share no member. *)
Theorem calculate_match_score_zero (A B : list string) :
  calculate_match_score A B = 0%Z <-> forall x, x ∈ A -> x ∉ B.
Proof.
  rewrite score_as_size. change 0%Z with (Z.of_nat 0). rewrite Nat2Z.inj_iff.
  rewrite size_empty_iff. split.
  - intros Hempty x HA HB. apply (not_elem_of_empty (C:=gset string) x).
    rewrite <- Hempty. by rewrite elem_of_intersection, !elem_of_list_to_set.
  - intros Hdisj. apply elem_of_equiv_empty. intros x.
    rewrite elem_of_intersection, !elem_of_list_to_set. intros [HA HB].
    by apply (Hdisj x).
Qed.

(** ** Text extraction, continued *)

Lemma string_app_assoc (a b c : string) : (a +:+ b) +:+ c = a +:+ b +:+ c.
Proof.
  induction a as [|x a IH]; [done|].
  change (String x ((a +:+ b) +:+ c) = String x (a +:+ b +:+ c)). by rewrite IH.
Qed.

Lemma string_app_nil_r (a : string) : a +:+ "" = a.
Proof.
  induction a as [|x a IH]; [done|].
  change (String x (a +:+ "") = String x a). by rewrite IH.
Qed.

Lemma string_app_empty (a b : string) : a +:+ b = "" -> a = "" /\ b = "".
Proof. destruct a; [intros H; split; [done|exact H]|done]. Qed.

Lemma pdf_pages_readable texts : forall text,
  pdf_pages (Returns <$> texts) text
  = (text +:+ lines (filter (fun t => t <> "") texts), None).
Proof.
  induction texts as [|t texts IH]; intros text; simpl.
  - by rewrite string_app_nil_r.
  - rewrite IH. case_bool_decide as Ht.
    + by rewrite filter_cons_False by (intros H; by apply H).
    + rewrite filter_cons_True by done. simpl. by rewrite !string_app_assoc.
Qed.

Lemma docx_paragraphs_readable paras : forall text,
  docx_paragraphs (Returns <$> paras) text = (text +:+ lines paras, None).
Proof.
  induction paras as [|t paras IH]; intros text; simpl.
  - by rewrite string_app_nil_r.
  - rewrite IH. by rewrite !string_app_assoc.
Qed.

Lemma lines_empty l : lines l = "" -> l = [].
Proof.
  destruct l as [|t l]; [done|]. simpl.
  intros [_ [H _]%string_app_empty]%string_app_empty. done.
Qed.

Section ReadableDocuments.

Variable PdfReader : bytes -> outcome (list (outcome string)).
Variable Document : bytes -> outcome (list (outcome string)).

(** X16: A PDF that reads without failure gives the texts of its pages in
    order, a newline after each; pages without text leave no trace, and
    no warning is shown.  A PDF with no text on any page therefore gives
    the empty text. *)
Theorem pdf_text_of_readable_pages (content : bytes) (texts : list string) :
  PdfReader content = Returns (Returns <$> texts) ->
  extract_text_from_pdf PdfReader content
    = (lines (filter (fun t => t <> "") texts), []) /\
  (Forall (fun t => t = "") texts ->
   value (extract_text_from_pdf PdfReader content) = "").
Proof.
  intros Hopen. unfold extract_text_from_pdf. rewrite Hopen, pdf_pages_readable.
  clear Hopen. split; [done|]. intros Hblank. simpl.
  induction Hblank as [|t texts -> _ IH]; [done|].
  by rewrite filter_cons_False by (intros H; by apply H).
Qed.

(** X17: A DOCX that reads without failure gives the texts of its paragraphs
    in order, a newline after each, empty paragraphs included, and no
    warning; with at least one paragraph the text is not empty. *)
Theorem docx_text_of_readable_paragraphs (content : bytes) (paras : list string) :
  Document content = Returns (Returns <$> paras) ->
  extract_text_from_docx Document content = (lines paras, []) /\
  (paras <> [] -> value (extract_text_from_docx Document content) <> "").
Proof.
  intros Hopen. unfold extract_text_from_docx.
  rewrite Hopen, docx_paragraphs_readable. split; [done|].
  intros Hne Hempty. simpl in Hempty. by apply lines_empty in Hempty.
Qed.

Lemma extract_text_events (file : uploaded_file) :
  events (extract_text PdfReader Document file) = [] \/
  exists w, events (extract_text PdfReader Document file) = [StWarning w].
Proof.
  unfold extract_text, extract_text_from_pdf, extract_text_from_docx.
  repeat case_bool_decide.
  - destruct (PdfReader _) as [pages|e]; [|right; eexists; reflexivity].
    destruct (pdf_pages pages "") as [text [e|]];
      [right; eexists; reflexivity|by left].
  - destruct (Document _) as [paras|e]; [|right; eexists; reflexivity].
    destruct (docx_paragraphs paras "") as [text [e|]];
      [right; eexists; reflexivity|by left].
  - right; eexists; reflexivity.
Qed.

(** X18: Reading a file shows at most one message, and that is a warning. *)
Theorem extract_text_warns_at_most_once (file : uploaded_file) :
  events (extract_text PdfReader Document file) = [] \/
  exists w, events (extract_text PdfReader Document file) = [StWarning w].
Proof. apply extract_text_events. Qed.

End ReadableDocuments.

Lemma pdf_text_of_readable_pages_witness :
  extract_text_from_pdf (fun _ => Returns [Returns "Jane"; Returns ""; Returns "Doe"]) []
    = (lines (filter (fun t => t <> "") ["Jane"; ""; "Doe"]), []) /\
  (Forall (fun t => t = "") ["Jane"; ""; "Doe"] ->
   value (extract_text_from_pdf
            (fun _ => Returns [Returns "Jane"; Returns ""; Returns "Doe"]) []) = "").
Proof.
  apply (pdf_text_of_readable_pages
           (fun _ => Returns [Returns "Jane"; Returns ""; Returns "Doe"]) []
           ["Jane"; ""; "Doe"]).
  reflexivity.
Defined.

Lemma docx_text_of_readable_paragraphs_witness :
  extract_text_from_docx (fun _ => Returns [Returns ""; Returns "Doe"]) []
    = (lines [""; "Doe"], []) /\
  ([""; "Doe"] <> [] ->
   value (extract_text_from_docx (fun _ => Returns [Returns ""; Returns "Doe"]) []) <> "").
Proof.
  apply (docx_text_of_readable_paragraphs
           (fun _ => Returns [Returns ""; Returns "Doe"]) [] [""; "Doe"]).
  reflexivity.
Defined.

(** ** The batch, continued *)

Section BatchFacts.

Variable PdfReader : bytes -> outcome (list (outcome string)).
Variable Document : bytes -> outcome (list (outcome string)).
Variable nlp : string -> list ent.

Lemma resume_loop_step file rest i total job_keywords results :
  resume_loop PdfReader Document nlp (file :: rest) i total job_keywords results
  = (let '(out, log) :=
       resume_loop PdfReader Document nlp rest (i + 1) total job_keywords
         (results ++ [resume_row PdfReader Document nlp job_keywords file]) in
     (out,
      StWrite ("Processing: " +:+ name file +:+ "...")
        :: events (extract_text PdfReader Document file)
        ++ (if bool_decide (value (extract_text PdfReader Document file) = "")
            then [StWrite ("  -> Could not extract text from " +:+ name file +:+ ".")]
            else [])
        ++ StProgress (i + 1) total :: log)).
Proof.
  cbn [resume_loop]. unfold resume_row, value, events, mbind, ui_bind, emit.
  destruct (extract_text PdfReader Document file) as [resume_text log0].
  cbn [fst snd]. case_bool_decide.
  - destruct (resume_loop _ _ _ rest _ _ _ _) as [out log].
    simpl. reflexivity.
  - destruct (extract_contact_info resume_text) as [email phone]. cbn [fst snd].
    destruct (resume_loop _ _ _ rest _ _ _ _) as [out log].
    simpl. reflexivity.
Qed.

Lemma resume_loop_value files : forall i total job_keywords results,
  value (resume_loop PdfReader Document nlp files i total job_keywords results)
  = results ++ (resume_row PdfReader Document nlp job_keywords <$> files).
Proof.
  induction files as [|file rest IH]; intros i total job_keywords results.
  - simpl. by rewrite app_nil_r.
  - rewrite resume_loop_step.
    specialize (IH (i + 1) total job_keywords
      (results ++ [resume_row PdfReader Document nlp job_keywords file])).
    destruct (resume_loop _ _ _ rest _ _ _ _) as [out log].
    simpl in *. rewrite IH, <- app_assoc. done.
Qed.

Lemma process_resumes_value uploaded_files job_description :
  value (process_resumes PdfReader Document nlp uploaded_files job_description)
  = resume_row PdfReader Document nlp
      (extract_skills job_description TARGET_SKILLS) <$> uploaded_files.
Proof.
  assert (extract_skills (str_lower job_description) TARGET_SKILLS
          = extract_skills job_description TARGET_SKILLS) as Hk.
  { unfold extract_skills. by rewrite found_skills_lowered. }
  rewrite <- Hk. clear Hk.
  pose proof (resume_loop_value uploaded_files 0 (length uploaded_files)
    (extract_skills (str_lower job_description) TARGET_SKILLS) []) as H.
  unfold process_resumes, value, mbind, ui_bind, emit in *.
  destruct (extract_skills (str_lower job_description) TARGET_SKILLS);
    destruct (resume_loop _ _ _ uploaded_files _ _ _ _) as [out log];
    simpl in *; exact H.
Qed.

(** X22: Each file is processed on its own: the rows of a batch are the rows
    of its files, one per file and in the order of upload; the row of a
    file depends on that file and on the job description, not on the
    other files or on its place among them. *)
Theorem process_resumes_row_per_file
    (uploaded_files : list uploaded_file) (job_description : string) :
  value (process_resumes PdfReader Document nlp uploaded_files job_description)
  = resume_row PdfReader Document nlp
      (extract_skills job_description TARGET_SKILLS) <$> uploaded_files /\
  Filename <$> value (process_resumes PdfReader Document nlp
                        uploaded_files job_description)
  = name <$> uploaded_files.
Proof.
  rewrite process_resumes_value. split; [done|].
  rewrite <- list_fmap_compose. apply list_fmap_ext. intros _ file _.
  simpl. unfold resume_row. cbv zeta. by case_bool_decide.
Qed.

Lemma score_of_sorted skills job_keywords :
  calculate_match_score (sorted skills) job_keywords
  = calculate_match_score skills job_keywords.
Proof.
  rewrite !score_as_size. do 3 f_equal. apply set_eq. intros x.
  rewrite !elem_of_list_to_set. unfold sorted. by rewrite merge_sort_Permutation.
Qed.

Lemma score_le_length skills job_keywords :
  NoDup skills ->
  (0 <= calculate_match_score skills job_keywords <= Z.of_nat (length skills))%Z.
Proof.
  intros Hnd. rewrite score_as_size. split; [lia|].
  rewrite <- (size_list_to_set (C:=gset string) skills Hnd).
  apply inj_le, subseteq_size, intersection_subseteq_l.
Qed.

(** X23: Every row of a batch, placeholders included, keeps the shape the
    results table relies on: its skills are entries of [TARGET_SKILLS]
    in ascending order without repeats, and its score is the number of
    those skills that are also job keywords, so between 0 and the number
    of skills listed. *)
Theorem process_resumes_rows_consistent
    (uploaded_files : list uploaded_file) (job_description : string) (r : row) :
  r ∈ value (process_resumes PdfReader Document nlp uploaded_files job_description) ->
  Sorted String.le (Skills_Found r) /\ NoDup (Skills_Found r) /\
  (forall s, s ∈ Skills_Found r -> s ∈ TARGET_SKILLS) /\
  Score r = calculate_match_score (Skills_Found r)
              (extract_skills job_description TARGET_SKILLS) /\
  (0 <= Score r <= Z.of_nat (length (Skills_Found r)))%Z.
Proof.
  rewrite process_resumes_value. intros (file & -> & _)%list_elem_of_fmap.
  unfold resume_row. cbv zeta. case_bool_decide as Hempty.
  - cbn [extraction_failed Skills_Found Score].
    split; [constructor|]. split; [constructor|].
    split; [intros s0 Hs; inversion Hs|].
    split; [|cbn [length]; lia].
    rewrite score_as_size. change (list_to_set []) with (∅ : gset string).
    by rewrite intersection_empty_l_L, size_empty.
  - cbn [Skills_Found Score].
    set (skills := extract_skills _ TARGET_SKILLS).
    assert (NoDup (sorted skills)) as Hnd.
    { unfold sorted. rewrite merge_sort_Permutation. apply NoDup_elements. }
    split; [apply (Sorted_merge_sort String.le)|]. split; [done|].
    split; [|split].
    + intros s0. unfold sorted. rewrite merge_sort_Permutation.
      by intros [? _]%elem_of_extract_skills.
    + by rewrite score_of_sorted.
    + rewrite <- (score_of_sorted skills). by apply score_le_length.
Qed.

End BatchFacts.

Section ProgressFacts.

Variable PdfReader : bytes -> outcome (list (outcome string)).
Variable Document : bytes -> outcome (list (outcome string)).
Variable nlp : string -> list ent.

Lemma extract_text_events_ok file :
  Forall progress_ok (events (extract_text PdfReader Document file)).
Proof.
  destruct (extract_text_events PdfReader Document file) as [->|[w ->]];
    repeat constructor.
Qed.

Lemma resume_loop_progress files : forall i total job_keywords results,
  i + length files = total ->
  Forall progress_ok
    (events (resume_loop PdfReader Document nlp files i total job_keywords results)) /\
  (files <> [] ->
   last (events (resume_loop PdfReader Document nlp files i total job_keywords results))
   = Some (StProgress total total)).
Proof.
  induction files as [|file rest IH]; intros i total job_keywords results Hlen.
  - split; [constructor|done].
  - rewrite resume_loop_step. simpl in Hlen.
    destruct (IH (i + 1) total job_keywords
      (results ++ [resume_row PdfReader Document nlp job_keywords file]))
      as [Hok Hlast]; [lia|].
    destruct (resume_loop _ _ _ rest _ _ _ _) as [out log] eqn:E.
    unfold events in *. cbn [snd] in *. split.
    + constructor; [done|]. apply Forall_app. split; [apply extract_text_events_ok|].
      apply Forall_app. split; [case_bool_decide; repeat constructor|].
      constructor; [simpl; lia|done].
    + intros _. rewrite last_cons, !last_app. destruct rest as [|file' rest'].
      * simpl in E. injection E as <- <-. simpl in *.
        replace (i + 1) with total by lia. done.
      * rewrite last_cons, Hlast by done. done.
Qed.

(** X24: Every progress call of a batch passes a fraction between 0 and 1,
    never a division by zero, and with at least one file the last call
    of the batch sets the bar to full. *)
Theorem process_resumes_progress
    (uploaded_files : list uploaded_file) (job_description : string) :
  Forall progress_ok
    (events (process_resumes PdfReader Document nlp uploaded_files job_description)) /\
  (uploaded_files <> [] ->
   last (events (process_resumes PdfReader Document nlp
                   uploaded_files job_description))
   = Some (StProgress (length uploaded_files) (length uploaded_files))).
Proof.
  destruct (resume_loop_progress uploaded_files 0 (length uploaded_files)
    (extract_skills (str_lower job_description) TARGET_SKILLS) [] eq_refl)
    as [Hok Hlast].
  unfold process_resumes, events, mbind, ui_bind, emit in *.
  destruct (extract_skills (str_lower job_description) TARGET_SKILLS);
    destruct (resume_loop _ _ _ uploaded_files _ _ _ _) as [out log];
    cbn [snd app] in *.
  all: split; [repeat (constructor; [simpl; auto; lia|]); exact Hok|].
  all: intros Hne; rewrite !last_cons, (Hlast Hne); done.
Qed.

End ProgressFacts.

Lemma process_resumes_progress_witness :
  last (events (process_resumes pdf_bad_second_page docx_unreadable no_entities
                  [UploadedFile "cv.pdf" []; UploadedFile "notes.txt" []] "Python"))
  = Some (StProgress 2 2).
Proof.
  apply (proj2 (process_resumes_progress pdf_bad_second_page docx_unreadable
    no_entities [UploadedFile "cv.pdf" []; UploadedFile "notes.txt" []] "Python")).
  discriminate.
Defined.

(** ** Ranking, continued *)

Lemma StronglySorted_lookup_lt {A} (R : relation A) (l : list A) :
  StronglySorted R l ->
  forall p q a b, l !! p = Some a -> l !! q = Some b -> p < q -> R a b.
Proof.
  induction 1 as [|x l _ IH Hx]; intros p q a b Hp Hq Hlt; [done|].
  destruct q as [|q]; [lia|]. simpl in Hq. destruct p as [|p].
  - injection Hp as <-. rewrite Forall_forall in Hx. apply Hx.
    by apply list_elem_of_lookup_2 in Hq.
  - simpl in Hp. apply (IH p q); [done|done|lia].
Qed.

Section RankOrder.

Variable sort_values : frame row -> frame row.
Hypothesis sort_values_ok : sort_values_spec sort_values.

Lemma ranked_df_positions results ranked :
  ranked_df sort_values results = Returns ranked ->
  exists rows : list row,
    rows ≡ₚ results /\
    StronglySorted (fun a b => (Score a >= Score b)%Z) rows /\
    length ranked = length rows /\
    forall p x, ranked.*2 !! p = Some x ->
      Rank x = Z.of_nat (S p) /\ rows !! p = Some (candidate x).
Proof.
  intros Hr. destruct results as [|r0 results]; [done|].
  set (res := r0 :: results) in *.
  pose proof (sorted_df_returns sort_values res) as Hdf.
  destruct (ranked_df_columns sort_values sort_values_ok res _ (Hdf ltac:(done)))
    as (ranked' & Hr' & _ & Hranks & Hrows).
  rewrite Hr in Hr'. injection Hr' as <-.
  exists (sort_values (DataFrame res)).*2. split; [|split; [|split]].
  - by apply (sorted_df_rows sort_values sort_values_ok res _), Hdf.
  - apply Sorted_StronglySorted; [intros a b c; lia|].
    apply (Sorted_fmap snd score_desc); [intros a b H; exact H|].
    apply (sort_values_desc _ sort_values_ok).
  - rewrite <- Hrows, !length_fmap. done.
  - intros p x Hp. split.
    + assert ((Rank <$> ranked.*2) !! p = Some (Rank x)) as Hrp.
      { by rewrite list_lookup_fmap, Hp. }
      rewrite Hranks, list_lookup_fmap in Hrp.
      destruct (seq 1 (length res) !! p) as [j|] eqn:Ej; [|done].
      apply lookup_seq in Ej as [-> _]. simpl in Hrp. by injection Hrp as <-.
    + rewrite <- Hrows, list_lookup_fmap, Hp. done.
Qed.

(** X25: In the ranked table a candidate with a higher score always stands
    under a smaller rank number than one with a lower score. *)
Theorem higher_score_ranks_first (results : list row) (ranked : frame ranked_row)
    (x y : ranked_row) :
  ranked_df sort_values results = Returns ranked ->
  x ∈ ranked.*2 -> y ∈ ranked.*2 ->
  (Score (candidate x) > Score (candidate y))%Z ->
  (Rank x < Rank y)%Z.
Proof.
  intros Hr [p Hp]%list_elem_of_lookup_1 [q Hq]%list_elem_of_lookup_1 Hscore.
  destruct (ranked_df_positions _ _ Hr) as (rows & _ & Hsorted & _ & Hpos).
  destruct (Hpos p x Hp) as [-> Hxp]. destruct (Hpos q y Hq) as [-> Hyq].
  destruct (Nat.lt_trichotomy p q) as [Hlt|[->|Hgt]]; [lia| |].
  - rewrite Hp in Hq. injection Hq as ->. lia.
  - pose proof (StronglySorted_lookup_lt _ _ Hsorted q p _ _ Hyq Hxp Hgt) as Hge.
    cbv beta in Hge. lia.
Qed.

End RankOrder.

Lemma higher_score_ranks_first_witness :
  (Rank (Ranked 1 (Row "b.pdf" "Bob" "N/A" "N/A" ["aws"; "sql"] 2 "aws sql"))
   < Rank (Ranked 2 (Row "a.pdf" "Ann" "N/A" "N/A" ["sql"] 1 "sql")))%Z.
Proof.
  apply (higher_score_ranks_first sort_values_merged sort_values_merged_spec
    [ Row "a.pdf" "Ann" "N/A" "N/A" ["sql"] 1 "sql";
      Row "b.pdf" "Bob" "N/A" "N/A" ["aws"; "sql"] 2 "aws sql" ]
    [ (1%Z, Ranked 1 (Row "b.pdf" "Bob" "N/A" "N/A" ["aws"; "sql"] 2 "aws sql"));
      (2%Z, Ranked 2 (Row "a.pdf" "Ann" "N/A" "N/A" ["sql"] 1 "sql")) ]).
  - vm_compute. reflexivity.
  - simpl. repeat constructor.
  - simpl. repeat constructor.
  - simpl. lia.
Defined.

(** ** The processing block, continued *)

Lemma ui_bind_value {A B} (m : UI A) (f : A -> UI B) :
  value (m ≫= f) = value (f (value m)).
Proof.
  unfold value, mbind, ui_bind. destruct m as [a log1]. simpl.
  by destruct (f a).
Qed.

(** X26: From upload to table: when the block is entered, every uploaded file
    stands in the ranked table exactly once, under one of the ranks
    1, ..., n for n files, and higher scores come first. *)
Theorem process_block_ranks_every_file
    (PdfReader Document : bytes -> outcome (list (outcome string)))
    (nlp : string -> list ent) (sort_values : frame row -> frame row)
    (uploaded_files : list uploaded_file) (job_description : string) :
  sort_values_spec sort_values ->
  uploaded_files <> [] -> job_description <> "" ->
  exists ranked,
    value (process_block PdfReader Document nlp sort_values true
             uploaded_files job_description) = Some (Returns ranked) /\
    Rank <$> ranked.*2 = Z.of_nat <$> seq 1 (length uploaded_files) /\
    (fun x => Filename (candidate x)) <$> ranked.*2 ≡ₚ name <$> uploaded_files /\
    Sorted (fun a b => (Score a >= Score b)%Z) (candidate <$> ranked.*2).
Proof.
  intros Hok Hfiles Hjd. unfold process_block.
  rewrite !bool_decide_true by done. cbn [andb]. rewrite ui_bind_value.
  set (results := value (process_resumes _ _ _ _ _)).
  assert (Filename <$> results = name <$> uploaded_files) as Hnames.
  { unfold results. rewrite process_resumes_value, <- list_fmap_compose.
    apply list_fmap_ext. intros _ file _. simpl. unfold resume_row. cbv zeta.
    by case_bool_decide. }
  assert (length results = length uploaded_files) as Hlen.
  { by rewrite <- (length_fmap Filename), Hnames, length_fmap. }
  assert (results <> []) as Hne.
  { intros Hnil. rewrite Hnil in Hlen. by destruct uploaded_files. }
  destruct (ranked_df_columns sort_values Hok results _
              (sorted_df_returns sort_values results Hne))
    as (ranked & Hr & _ & Hranks & Hrows).
  exists ranked. rewrite Hr. split; [done|]. split; [by rewrite Hranks, Hlen|].
  split.
  - rewrite <- Hnames, (list_fmap_compose candidate Filename), Hrows.
    by rewrite (sorted_df_rows sort_values Hok results _
                  (sorted_df_returns sort_values results Hne)).
  - rewrite Hrows. apply (Sorted_fmap snd score_desc); [intros a b H; exact H|].
    apply (sort_values_desc _ Hok).
Qed.

Lemma process_block_ranks_every_file_witness :
  exists ranked,
    value (process_block pdf_bad_second_page docx_unreadable no_entities
             sort_values_merged true
             [UploadedFile "cv.pdf" []; UploadedFile "notes.txt" []] "Python")
      = Some (Returns ranked) /\
    Rank <$> ranked.*2 = Z.of_nat <$> seq 1 2 /\
    (fun x => Filename (candidate x)) <$> ranked.*2
      ≡ₚ name <$> [UploadedFile "cv.pdf" []; UploadedFile "notes.txt" []] /\
    Sorted (fun a b => (Score a >= Score b)%Z) (candidate <$> ranked.*2).
Proof.
  apply (process_block_ranks_every_file pdf_bad_second_page docx_unreadable
    no_entities sort_values_merged
    [UploadedFile "cv.pdf" []; UploadedFile "notes.txt" []] "Python").
  - exact sort_values_merged_spec.
  - discriminate.
  - discriminate.
Defined.

(** ** Candidate name, continued *)

Lemma elem_of_person_names text ents recorded :
  recorded ∈ person_names text ents <->
  exists e, e ∈ ents /\ label_ e = "PERSON" /\ recorded = ent_text text e.
Proof.
  unfold person_names. rewrite list_elem_of_fmap. split.
  - intros (e & -> & [Hl He]%list_elem_of_filter). eauto.
  - intros (e & He & Hl & ->). exists e. split; [done|].
    by apply list_elem_of_filter.
Qed.

Lemma extract_name_cases text nlp_model :
  match extract_name text nlp_model with
  | Some found => found ∈ person_names text (nlp_model text)
  | None => person_names text (nlp_model text) = []
  end.
Proof.
  unfold extract_name. cbv zeta.
  pose proof (first_multi_word_spec (person_names text (nlp_model text))) as Hspec.
  destruct (first_multi_word _) as [found|].
  - destruct Hspec as (i & Hi & _). by apply list_elem_of_lookup_2 in Hi.
  - destruct (person_names text (nlp_model text)) as [|n names]; [done|].
    simpl. left.
Qed.

(** X14: A name is returned exactly when the pipeline reports some entity
    labelled PERSON, and the name returned is the text of such an
    entity; entities under other labels are never returned as names. *)
Theorem extract_name_is_a_person_entity (text : string) (nlp_model : string -> list ent) :
  (extract_name text nlp_model = None <->
   forall e, e ∈ nlp_model text -> label_ e <> "PERSON") /\
  (forall found, extract_name text nlp_model = Some found ->
   exists e, e ∈ nlp_model text /\ label_ e = "PERSON" /\ found = ent_text text e).
Proof.
  pose proof (extract_name_cases text nlp_model) as Hcases. split.
  - destruct (extract_name text nlp_model) as [found|].
    + apply elem_of_person_names in Hcases as (e & He & Hl & _).
      split; [done|]. intros Hnone. by destruct (Hnone e He).
    + split; [|done]. intros _ e He Hl.
      assert (ent_text text e ∈ person_names text (nlp_model text)) as Hin.
      { apply elem_of_person_names. eauto. }
      rewrite Hcases in Hin. inversion Hin.
  - intros found Hfound. rewrite Hfound in Hcases.
    by apply elem_of_person_names in Hcases.
Qed.

(** X15: With entities that are non-empty ranges of the text, the name
    returned is not empty and stands in the text letter for letter. *)
Theorem extract_name_stands_in_text
    (text : string) (nlp_model : string -> list ent) (found : string) :
  ents_within nlp_model ->
  extract_name text nlp_model = Some found ->
  found <> "" /\ exists pre post : string, text = pre +:+ found +:+ post.
Proof.
  intros Hin Hfound. pose proof (extract_name_cases text nlp_model) as Hcases.
  rewrite Hfound in Hcases.
  apply elem_of_person_names in Hcases as (e & He & _ & ->).
  destruct (Hin text e He) as [Hlt Hle]. unfold ent_text.
  set (l := chars text) in *. split.
  - intros Hempty. apply (f_equal chars) in Hempty. rewrite chars_str in Hempty.
    apply (f_equal length) in Hempty.
    rewrite length_take, length_drop in Hempty. simpl in Hempty. lia.
  - exists (str (take (start_char e) l)),
           (str (drop (end_char e - start_char e) (drop (start_char e) l))).
    rewrite <- !str_app, take_drop, take_drop. unfold l. by rewrite str_chars.
Qed.

Lemma extract_name_stands_in_text_witness :
  "Jane Doe" <> "" /\
  exists pre post : string, "Resume of Jane Doe, engineer" = pre +:+ "Jane Doe" +:+ post.
Proof.
  apply (extract_name_stands_in_text "Resume of Jane Doe, engineer"
           (fun text => if bool_decide (text = "Resume of Jane Doe, engineer")
                        then [Ent 10 18 "PERSON"] else [])).
  - intros text e. case_bool_decide as Ht; [subst text|intros H; inversion H].
    intros ->%list_elem_of_singleton. simpl. lia.
  - vm_compute. reflexivity.
Defined.

(** ** File names *)

Lemma rfind_go_app c l1 l2 i best :
  rfind_go c (l1 ++ l2) i best
  = rfind_go c l2 (i + Z.of_nat (length l1))%Z (rfind_go c l1 i best).
Proof.
  revert i best. induction l1 as [|x l1 IH]; intros i best; simpl.
  - by rewrite Z.add_0_r.
  - rewrite IH. f_equal. lia.
Qed.

Lemma rfind_go_absent c l i best : c ∉ l -> rfind_go c l i best = best.
Proof.
  revert i best. induction l as [|x l IH]; intros i best Hc; [done|]. simpl.
  apply not_elem_of_cons in Hc as [Hne Hc]. rewrite IH by done.
  destruct (Ascii.eqb_spec x c); congruence.
Qed.

Lemma rfind_go_bounds c l : forall i best,
  (-1 <= best < i)%Z ->
  (-1 <= rfind_go c l i best < i + Z.of_nat (length l))%Z.
Proof.
  induction l as [|x l IH]; intros i best Hb; simpl; [lia|].
  destruct (Ascii.eqb x c).
  - specialize (IH (i + 1)%Z i). lia.
  - specialize (IH (i + 1)%Z best). lia.
Qed.

Lemma str_lower_cons c l : str_lower (str (c :: l)) = String (Char.lower c) (str_lower (str l)).
Proof. unfold str_lower. by rewrite !chars_str. Qed.

(** The extension of a name that reads [pre ++ stem ++ "." ++ ext]. *)
Lemma splitext_ext_last_dot (p : string) (pre stem ext : list ascii) :
  chars p = pre ++ stem ++ "."%char :: ext ->
  "/"%char ∉ stem -> (exists x, x ∈ stem /\ x <> "."%char) ->
  "/"%char ∉ ext -> "."%char ∉ ext ->
  splitext_ext p = str ("."%char :: ext).
Proof.
  intros Hp Hstem (x & Hx & Hxdot) Hext Hdot. unfold splitext_ext. cbv zeta.
  rewrite Hp.
  assert (rfind "." (pre ++ stem ++ "."%char :: ext)
          = Z.of_nat (length pre + length stem)) as Hd.
  { unfold rfind. rewrite app_assoc, rfind_go_app. simpl.
    rewrite rfind_go_absent by done. rewrite length_app. lia. }
  assert (-1 <= rfind "/" (pre ++ stem ++ "."%char :: ext)
          < Z.of_nat (length pre))%Z as Hs.
  { unfold rfind. rewrite rfind_go_app. rewrite rfind_go_absent.
    - pose proof (rfind_go_bounds "/" pre 0 (-1)). lia.
    - rewrite elem_of_app, elem_of_cons. intros [?|[?|?]]; done. }
  rewrite Hd. set (sep := rfind "/" _) in *.
  rewrite (proj2 (Z.ltb_lt _ _)) by lia.
  rewrite Nat2Z.id.
  assert (drop (length pre + length stem) (pre ++ stem ++ "."%char :: ext)
          = "."%char :: ext) as ->.
  { by rewrite app_assoc, drop_app_length'; [|rewrite length_app]. }
  assert (existsb (fun y => negb (Ascii.eqb y ".")) (take
            (length pre + length stem - Z.to_nat (sep + 1))
            (drop (Z.to_nat (sep + 1)) (pre ++ stem ++ "."%char :: ext))) = true)
    as ->; [|done].
  apply existsb_exists. exists x. split.
  - apply list_elem_of_In.
    rewrite take_drop_commute.
    replace (Z.to_nat (sep + 1) + (length pre + length stem - Z.to_nat (sep + 1)))
      with (length pre + length stem) by lia.
    rewrite app_assoc, take_app_length' by (by rewrite length_app).
    rewrite drop_app_le by lia. apply elem_of_app. by right.
  - destruct (Ascii.eqb_spec x "."); [done|done].
Qed.

Section Dispatch.

Variable PdfReader : bytes -> outcome (list (outcome string)).
Variable Document : bytes -> outcome (list (outcome string)).

(** X19: The reader is chosen by what follows the last dot of the file name,
    in any letter case: [pdf] goes to the PDF reader, [docx] to the DOCX
    reader, and anything else is refused with a warning.  Here the name
    reads [pre ++ stem ++ "." ++ ext] with no slash in [stem] or [ext],
    no dot in [ext], and some character other than a dot in [stem]. *)
Theorem extract_text_by_extension
    (file : uploaded_file) (pre stem ext : list ascii) :
  chars (name file) = pre ++ stem ++ "."%char :: ext ->
  "/"%char ∉ stem -> (exists x, x ∈ stem /\ x <> "."%char) ->
  "/"%char ∉ ext -> "."%char ∉ ext ->
  extract_text PdfReader Document file =
    if bool_decide (str_lower (str ext) = "pdf") then
      extract_text_from_pdf PdfReader (getvalue file)
    else if bool_decide (str_lower (str ext) = "docx") then
      extract_text_from_docx Document (getvalue file)
    else ("", [StWarning ("Unsupported file type: " +:+ name file)]).
Proof.
  intros Hp Hstem Hx Hext Hdot. unfold extract_text. cbv zeta.
  rewrite (splitext_ext_last_dot _ pre stem ext) by done.
  rewrite str_lower_cons. change (Char.lower ".") with "."%char.
  assert (forall a b : string, bool_decide (String "." a = String "." b)
                               = bool_decide (a = b)) as Hdec.
  { intros a b. apply bool_decide_ext. split; [by intros [= ->]|by intros ->]. }
  change ".pdf" with (String "." "pdf"). change ".docx" with (String "." "docx").
  rewrite !Hdec. repeat case_bool_decide; reflexivity.
Qed.

(** X20: A file whose name has no dot is refused, whatever it holds. *)
Theorem extract_text_without_extension (file : uploaded_file) :
  "."%char ∉ chars (name file) ->
  extract_text PdfReader Document file
  = ("", [StWarning ("Unsupported file type: " +:+ name file)]).
Proof.
  intros Hdot. unfold extract_text. cbv zeta.
  assert (splitext_ext (name file) = "") as ->; [|reflexivity].
  unfold splitext_ext. cbv zeta. unfold rfind at 2.
  rewrite rfind_go_absent by done.
  pose proof (rfind_go_bounds "/" (chars (name file)) 0 (-1)) as Hb.
  unfold rfind. rewrite (proj2 (Z.ltb_ge _ _)); [done|lia].
Qed.

End Dispatch.

Lemma extract_text_by_extension_witness :
  extract_text pdf_bad_second_page docx_unreadable (UploadedFile "cv/jane.v2.DocX" [])
  = if bool_decide (str_lower (str (chars "DocX")) = "pdf") then
      extract_text_from_pdf pdf_bad_second_page []
    else if bool_decide (str_lower (str (chars "DocX")) = "docx") then
      extract_text_from_docx docx_unreadable []
    else ("", [StWarning ("Unsupported file type: " +:+ "cv/jane.v2.DocX")]).
Proof.
  apply (extract_text_by_extension pdf_bad_second_page docx_unreadable
           (UploadedFile "cv/jane.v2.DocX" []) (chars "cv/") (chars "jane.v2")
           (chars "DocX")).
  - reflexivity.
  - compute_done.
  - exists "j"%char. split; [left|discriminate].
  - compute_done.
  - compute_done.
Defined.

Lemma extract_text_without_extension_witness :
  extract_text pdf_bad_second_page docx_unreadable (UploadedFile "resume" [])
  = ("", [StWarning ("Unsupported file type: " +:+ "resume")]).
Proof.
  apply (extract_text_without_extension pdf_bad_second_page docx_unreadable
           (UploadedFile "resume" [])).
  compute_done.
Defined.

(** ** Files that cannot be read *)

(** X21: A file of an unsupported type, and a PDF or DOCX that its reader
    cannot open, give the empty text with exactly one warning, and the
    batch enters the placeholder row for them. *)
Theorem unreadable_file_gets_placeholder
    (PdfReader Document : bytes -> outcome (list (outcome string)))
    (nlp : string -> list ent) (job_keywords : list string) (file : uploaded_file) :
  (str_lower (splitext_ext (name file)) <> ".pdf" /\
   str_lower (splitext_ext (name file)) <> ".docx") \/
  (str_lower (splitext_ext (name file)) = ".pdf" /\
   exists e, PdfReader (getvalue file) = Raises e) \/
  (str_lower (splitext_ext (name file)) = ".docx" /\
   exists e, Document (getvalue file) = Raises e) ->
  value (extract_text PdfReader Document file) = "" /\
  (exists w, events (extract_text PdfReader Document file) = [StWarning w]) /\
  resume_row PdfReader Document nlp job_keywords file = extraction_failed file.
Proof.
  intros Hcase.
  assert (value (extract_text PdfReader Document file) = "" /\
          exists w, events (extract_text PdfReader Document file) = [StWarning w])
    as [Hval Hev].
  { destruct Hcase as [[Hpdf Hdocx]|[[Hpdf [e He]]|[Hdocx [e He]]]].
    - rewrite extract_text_unsupported by done. split; [done|by eexists].
    - unfold extract_text. cbv zeta. rewrite Hpdf. cbn [bool_decide decide_rel].
      rewrite bool_decide_true by done.
      rewrite (extract_text_from_pdf_unopened _ _ e He). split; [done|by eexists].
    - unfold extract_text. cbv zeta. rewrite Hdocx.
      rewrite bool_decide_false by done. rewrite bool_decide_true by done.
      rewrite (extract_text_from_docx_unopened _ _ e He). split; [done|by eexists]. }
  split; [done|]. split; [done|].
  unfold resume_row. cbv zeta. by rewrite bool_decide_true.
Qed.

Lemma unreadable_file_gets_placeholder_witness :
  value (extract_text pdf_bad_second_page docx_unreadable
           (UploadedFile "cv.docx" [])) = "" /\
  (exists w, events (extract_text pdf_bad_second_page docx_unreadable
                       (UploadedFile "cv.docx" [])) = [StWarning w]) /\
  resume_row pdf_bad_second_page docx_unreadable no_entities ["python"]
    (UploadedFile "cv.docx" []) = extraction_failed (UploadedFile "cv.docx" []).
Proof.
  apply (unreadable_file_gets_placeholder pdf_bad_second_page docx_unreadable
           no_entities ["python"] (UploadedFile "cv.docx" [])).
  right. right. split; [reflexivity|]. eexists. reflexivity.
Defined.

Lemma process_resumes_rows_consistent_witness :
  let r := {| Filename := "cv.pdf"; Name := "Not Found";
              Email := "jane@example.com"; Phone := "Not Found";
              Skills_Found := ["aws"; "python"; "sql"]; Score := 2;
              Raw_Text := "jane@example.com: SQL, Python and AWS" +:+ newline |} in
  Sorted String.le (Skills_Found r) /\ NoDup (Skills_Found r) /\
  (forall s, s ∈ Skills_Found r -> s ∈ TARGET_SKILLS) /\
  Score r = calculate_match_score (Skills_Found r)
              (extract_skills "We need Python, AWS and Docker" TARGET_SKILLS) /\
  (0 <= Score r <= Z.of_nat (length (Skills_Found r)))%Z.
Proof.
  apply (process_resumes_rows_consistent
           (fun _ => Returns [Returns "jane@example.com: SQL, Python and AWS"])
           docx_unreadable no_entities
           [UploadedFile "notes.txt" []; UploadedFile "cv.pdf" []]
           "We need Python, AWS and Docker").
  vm_compute. right. left.
Defined.

(** ** What a text must hold *)

(** X4: A text without an at sign yields no email, and a text with fewer
    than ten digits yields no phone number. *)
Theorem contact_info_needs_material (text : string) :
  ("@"%char ∉ chars text -> (extract_contact_info text).1 = None) /\
  (digits (chars text) < 10 -> (extract_contact_info text).2 = None).
Proof.
  rewrite extract_contact_info_search. simpl. split.
  - intros Hat. destruct (search email_re text) as [m|] eqn:E; [|done].
    apply search_matches in E as (pre & rest & Htext & Hm).
    apply email_re_matches_shape in Hm as (l & d & t & Hshape & _).
    destruct Hat. rewrite Htext, Hshape.
    rewrite !elem_of_app, elem_of_cons. right. left. right. by left.
  - intros Hfew. destruct (search phone_re text) as [m|] eqn:E; [|done].
    apply search_matches in E as (pre & rest & Htext & Hm).
    apply phone_re_matches_shape in Hm as [Hten _].
    rewrite Htext, !digits_app, Hten in Hfew. lia.
Qed.

Lemma contact_info_needs_material_witness :
  (extract_contact_info "call 555-1234, mail jane at example.com").1 = None /\
  (extract_contact_info "call 555-1234, mail jane at example.com").2 = None.
Proof.
  split.
  - apply (proj1 (contact_info_needs_material
                    "call 555-1234, mail jane at example.com")).
    compute_done.
  - apply (proj2 (contact_info_needs_material
                    "call 555-1234, mail jane at example.com")).
    vm_compute. lia.
Defined.

(** ** Whole words, continued *)

(** X5: A vocabulary entry whose lowercased form begins and ends with a word
    character is among the extracted skills exactly when the lowercased
    text contains it with a non-word character or an edge of the text on
    either side. *)
Theorem skills_found_as_whole_words
    (text : string) (skills_list : list string) (skill : string) :
  skill ∈ skills_list -> word_edged skill = true ->
  (skill ∈ extract_skills text skills_list <->
   contains_whole_word skill text = true).
Proof.
  intros Hin Hedged.
  rewrite elem_of_extract_skills, skill_in_text_whole_word by done. tauto.
Qed.

Lemma skills_found_as_whole_words_witness :
  "node.js" ∈ extract_skills "Built with Node.js and React" TARGET_SKILLS <->
  contains_whole_word "node.js" "Built with Node.js and React" = true.
Proof.
  apply (skills_found_as_whole_words "Built with Node.js and React" TARGET_SKILLS).
  - compute_done.
  - vm_compute. reflexivity.
Defined.

Lemma target_skills_word_edged :
  Forall (fun skill => skill = "c++" \/ word_edged skill = true) TARGET_SKILLS.
Proof. compute_done. Qed.

(** X27: With the program's own vocabulary, every skill other than ["c++"] is
    reported exactly when the text contains it as a whole word, letter
    case aside. *)
Theorem target_skills_found_as_whole_words (text skill : string) :
  skill ∈ TARGET_SKILLS -> skill <> "c++" ->
  (skill ∈ extract_skills text TARGET_SKILLS <->
   contains_whole_word skill text = true).
Proof.
  intros Hin Hne.
  pose proof target_skills_word_edged as Hall. rewrite Forall_forall in Hall.
  destruct (Hall skill Hin) as [?|Hedged]; [done|].
  rewrite elem_of_extract_skills, skill_in_text_whole_word by done. tauto.
Qed.

Lemma target_skills_found_as_whole_words_witness :
  "machine learning" ∈ extract_skills "Deep Learning, Machine Learning." TARGET_SKILLS <->
  contains_whole_word "machine learning" "Deep Learning, Machine Learning." = true.
Proof.
  apply (target_skills_found_as_whole_words "Deep Learning, Machine Learning.").
  - compute_done.
  - discriminate.
Defined.

Lemma extract_name_is_a_person_entity_witness :
  exists e, e ∈ [Ent 0 4 "ORG"; Ent 10 18 "PERSON"] /\ label_ e = "PERSON" /\
            "Jane Doe" = ent_text "Acme. CV: Jane Doe" e.
Proof.
  apply (proj2 (extract_name_is_a_person_entity "Acme. CV: Jane Doe"
                  (fun _ => [Ent 0 4 "ORG"; Ent 10 18 "PERSON"])) "Jane Doe").
  vm_compute. reflexivity.
Defined.
